(** * The string-resource validator of android-tools (package [validator])

    A shallow embedding of the validation engine: the resource model, the
    four regular expressions, the placeholder and newline rules,
    [validateResources] and [Validate].

    Go strings are byte sequences; they are modelled by [string] (a list of
    8-bit [ascii]).  The patterns used by the validator only mention ASCII
    characters, and an ASCII byte never occurs inside a multi-byte UTF-8
    sequence, so matching byte by byte agrees with Go's rune-wise matching.

    A Go run-time panic (here: indexing a nil slice) is modelled by the
    [Panicked] constructor of [result]; a Go [error] return value that may be
    [nil] is an [option]. *)

From Stdlib Require Import List String Ascii Bool Arith Lia.
From Stdlib Require Import Decimal DecimalString.
From Stdlib Require Import ZArith Permutation.
Import ListNotations.

Local Open Scope string_scope.
Local Open Scope list_scope.

Set Implicit Arguments.

(** ** Outcomes of Go code that may panic *)

Inductive result (A : Type) : Type :=
| Returned (a : A)
| Panicked.

Arguments Panicked {A}.

Definition bind {A B} (r : result A) (k : A -> result B) : result B :=
  match r with
  | Returned a => k a
  | Panicked => Panicked
  end.

Declare Scope go_scope.
Delimit Scope go_scope with go.
Notation "x <- c ;; k" := (bind c (fun x => k))
  (at level 61, c at next level, right associativity) : go_scope.
Local Open Scope go_scope.

(** ** The resource model *)

Record stringEl := { stringEl_Name : string; stringEl_Value : string }.

Record pluralItemEl := { Quantity : string; pluralItemEl_Value : string }.

Record pluralEl := { pluralEl_Name : string; pluralEl_Items : list pluralItemEl }.

Record stringArrayEl := { stringArrayEl_Name : string; stringArrayEl_Items : list string }.

Record resourcesEl := {
  Strings : list stringEl;
  Plurals : list pluralEl;
  StringArrays : list stringArrayEl
}.

(** ** Errors

    [errorString] is what [errors.New] builds; [ResourceMissingError] and
    [ValidationError] are the validator's own error types; [ExternalError]
    stands for an error value handed back by the file system or the XML
    decoder. *)

Inductive error : Type :=
| errorString (msg : string)
| ResourceMissingError (msg : string)
| ValidationError (msg : string)
| ExternalError (msg : string).

Definition Error (e : error) : string :=
  match e with
  | errorString m | ResourceMissingError m | ValidationError m | ExternalError m => m
  end.

Definition comparisonValidation := string -> string -> result (option error).
Definition simpleValidation := string -> option error.

(** ** Formatting: the [%d] verb of [fmt.Sprintf] on a non-negative int *)

Definition itoa (n : nat) : string := NilEmpty.string_of_uint (Nat.to_uint n).

(** ** Regular expressions

    The four patterns are sequences of character classes, one of them under
    [+].  [One c] matches one character of class [c]; [Many1 c] matches one
    or more, preferring more (greedy) and giving characters back when the
    rest of the pattern fails, as Go's leftmost-first matching does. *)

Inductive atom : Type :=
| One (cls : ascii -> bool)
| Many1 (cls : ascii -> bool).

Definition regex := list atom.

Definition consFst (a : ascii) (p : string * string) : string * string :=
  (String a (fst p), snd p).

(** [matchHere r s]: the match of [r] anchored at the start of [s], as the
    pair of the matched text and the unread rest. *)
Fixpoint matchHere (r : regex) : string -> option (string * string) :=
  match r with
  | [] => fun s => Some (EmptyString, s)
  | One c :: r' => fun s =>
      match s with
      | String a s' => if c a then option_map (consFst a) (matchHere r' s') else None
      | EmptyString => None
      end
  | Many1 c :: r' =>
      fix more (s : string) : option (string * string) :=
        match s with
        | String a s' =>
            if c a then
              match more s' with
              | Some p => Some (consFst a p)
              | None => option_map (consFst a) (matchHere r' s')
              end
            else None
        | EmptyString => None
        end
  end.

(** [FindAllString r s]: all successive non-overlapping matches, leftmost
    first.  [skip] counts the characters of the previous match still to be
    stepped over.  (None of the validator's patterns matches the empty
    string.) *)
Fixpoint findAllFrom (r : regex) (skip : nat) (s : string) : list string :=
  match s with
  | EmptyString => []
  | String _ s' =>
      match skip with
      | S k => findAllFrom r k s'
      | O =>
          match matchHere r s with
          | Some (m, _) => m :: findAllFrom r (String.length m - 1) s'
          | None => findAllFrom r 0 s'
          end
      end
  end.

Definition FindAllString (r : regex) (s : string) : list string := findAllFrom r 0 s.

(** Each pattern is one capture group around the whole expression, so a
    submatch slice is [[whole; group1]] with both equal to the matched text. *)
Definition FindAllStringSubmatch (r : regex) (s : string) : list (list string) :=
  map (fun m => [m; m]) (FindAllString r s).

(** [ReplaceAllString r s repl] for a replacement text without [$]. *)
Fixpoint replaceAllFrom (r : regex) (repl : string) (skip : nat) (s : string) : string :=
  match s with
  | EmptyString => EmptyString
  | String a s' =>
      match skip with
      | S k => replaceAllFrom r repl k s'
      | O =>
          match matchHere r s with
          | Some (m, _) => repl ++ replaceAllFrom r repl (String.length m - 1) s'
          | None => String a (replaceAllFrom r repl 0 s')
          end
      end
  end.

Definition ReplaceAllString (r : regex) (s repl : string) : string :=
  replaceAllFrom r repl 0 s.

(** Character classes. *)
Definition isChar (c : ascii) (a : ascii) : bool := Ascii.eqb a c.

Definition inRange (lo hi : nat) (a : ascii) : bool :=
  Nat.leb lo (nat_of_ascii a) && Nat.leb (nat_of_ascii a) hi.

(** [[a-zA-Z]] *)
Definition isLetter (a : ascii) : bool := inRange 97 122 a || inRange 65 90 a.

(** [[0-9]] *)
Definition isDigit (a : ascii) : bool := inRange 48 57 a.

(** [\s] in Go's syntax is [[\t\n\f\r ]]. *)
Definition isSpace (a : ascii) : bool :=
  let n := nat_of_ascii a in
  Nat.eqb n 9 || Nat.eqb n 10 || Nat.eqb n 12 || Nat.eqb n 13 || Nat.eqb n 32.

Definition newline : ascii := ascii_of_nat 10.

(** ["(\\%[a-zA-Z])"] *)
Definition SimplePlaceholderRegex : regex := [One (isChar "%"); One isLetter].
(** ["(\\%[0-9]+\\$[a-zA-Z])"] *)
Definition PositionalPlaceholderRegex : regex :=
  [One (isChar "%"); Many1 isDigit; One (isChar "$"); One isLetter].
(** ["(\\%\\s)"] *)
Definition PotentialPlaceholderRegex : regex := [One (isChar "%"); One isSpace].
(** ["(\n)"] *)
Definition NewLineRegex : regex := [One (isChar newline)].

(** ** Slice indexing: out of range (in particular on a nil slice) panics *)

Definition index {A} (l : list A) (i : nat) : result A :=
  match nth_error l i with
  | Some x => Returned x
  | None => Panicked
  end.

(** Indexing a slice variable that may be nil. *)
Definition indexNilable {A} (l : option (list A)) (i : nat) : result A :=
  match l with
  | Some l' => index l' i
  | None => Panicked
  end.

(** ** The pairwise rules *)

(** The loop [for i, match := range baseMatches] of
    [validateSimplePlaceholders], started at index [i]. *)
Fixpoint simpleLoop (targetMatches : list (list string)) (i : nat)
    (baseMatches : list (list string)) : result (option error) :=
  match baseMatches with
  | [] => Returned None
  | match_ :: rest =>
      targetMatch <- index targetMatches i ;;
      m1 <- index match_ 1 ;;
      t1 <- index targetMatch 1 ;;
      if negb (String.eqb m1 t1) then
        Returned (Some (errorString
          ("The target string placeholder #" ++ itoa i ++ " is " ++ t1 ++
           ", while it probably should be " ++ m1)))
      else simpleLoop targetMatches (S i) rest
  end.

Definition countMismatch (targetMatchesCount baseMatchesCount : nat) : error :=
  errorString ("The target string has " ++ itoa targetMatchesCount ++
               " placeholder(s), while it should probably have " ++
               itoa baseMatchesCount).

Definition validateSimplePlaceholders : comparisonValidation :=
  fun baseElemString validatedElemString =>
  let baseMatches := FindAllStringSubmatch SimplePlaceholderRegex baseElemString in
  let targetMatches := FindAllStringSubmatch SimplePlaceholderRegex validatedElemString in
  let baseMatchesCount := List.length baseMatches in
  let targetMatchesCount := List.length targetMatches in
  if Nat.eqb baseMatchesCount 0 && Nat.eqb targetMatchesCount 0 then Returned None
  else if negb (Nat.eqb baseMatchesCount targetMatchesCount) then
    Returned (Some (countMismatch targetMatchesCount baseMatchesCount))
  else simpleLoop targetMatches 0 baseMatches.

(** The inner loop [for _, tmatch := range targetMatches]: [foundMatch] is
    overwritten by every target match equal to [match_]; [None] is nil. *)
Fixpoint searchLoop (match_ : list string) (targetMatches : list (list string))
    (foundMatch : option (list string)) : result (option (list string)) :=
  match targetMatches with
  | [] => Returned foundMatch
  | tmatch :: rest =>
      m1 <- index match_ 1 ;;
      t1 <- index tmatch 1 ;;
      searchLoop match_ rest (if String.eqb m1 t1 then Some tmatch else foundMatch)
  end.

(** The outer loop of [validatePositionalPlaceholders], started at index [i].
    When nothing was found the message is built from [foundMatch[1]], with
    [foundMatch] nil. *)
Fixpoint positionalLoop (targetMatches : list (list string)) (i : nat)
    (baseMatches : list (list string)) : result (option error) :=
  match baseMatches with
  | [] => Returned None
  | match_ :: rest =>
      foundMatch <- searchLoop match_ targetMatches None ;;
      match foundMatch with
      | None =>
          f1 <- indexNilable foundMatch 1 ;;
          m1 <- index match_ 1 ;;
          Returned (Some (errorString
            ("The target string placeholder #" ++ itoa i ++ " is " ++ f1 ++
             ", while it probably should be " ++ m1)))
      | Some _ => positionalLoop targetMatches (S i) rest
      end
  end.

Definition validatePositionalPlaceholders : comparisonValidation :=
  fun baseElemString validatedElemString =>
  let baseMatches := FindAllStringSubmatch PositionalPlaceholderRegex baseElemString in
  let targetMatches := FindAllStringSubmatch PositionalPlaceholderRegex validatedElemString in
  let baseMatchesCount := List.length baseMatches in
  let targetMatchesCount := List.length targetMatches in
  if Nat.eqb baseMatchesCount 0 && Nat.eqb targetMatchesCount 0 then Returned None
  else if negb (Nat.eqb baseMatchesCount targetMatchesCount) then
    Returned (Some (countMismatch targetMatchesCount baseMatchesCount))
  else positionalLoop targetMatches 0 baseMatches.

(** ** The single-value rules *)

Definition validatePotentialPlaceholder : simpleValidation :=
  fun elemValue =>
  let matches := FindAllStringSubmatch PotentialPlaceholderRegex elemValue in
  if Nat.ltb 0 (List.length matches) then
    Some (errorString ("Value '" ++ ReplaceAllString NewLineRegex elemValue "\n" ++
                       "' has a potential placeholder"))
  else None.

Definition validateNewlineCharacters : simpleValidation :=
  fun elemValue =>
  let matches := FindAllStringSubmatch NewLineRegex elemValue in
  if Nat.ltb 0 (List.length matches) then
    Some (errorString ("The following line must not have a newline character: '" ++
                       ReplaceAllString NewLineRegex elemValue "\n" ++ "'"))
  else None.

(** ** Lookup helpers *)

Definition findStringElement (resources : resourcesEl) (name : string) : option stringEl :=
  find (fun el => String.eqb (stringEl_Name el) name) (Strings resources).

Definition findStringArrayElement (resources : resourcesEl) (name : string)
    : option stringArrayEl :=
  find (fun el => String.eqb (stringArrayEl_Name el) name) (StringArrays resources).

(** ** [validateResources] *)

(** A [for _, x := range l] loop whose body updates the loop state [st] and
    may panic. *)
Fixpoint forRange {A S} (l : list A) (body : A -> S -> result S) (st : S) : result S :=
  match l with
  | [] => Returned st
  | x :: l' => st' <- body x st ;; forRange l' body st'
  end.

(** [fmt.Sprintf("%s in %s: %s", name, shortPath, err.Error())] wrapped in a
    [ValidationError]. *)
Definition ruleFailure (name shortPath : string) (err : error) : error :=
  ValidationError (name ++ " in " ++ shortPath ++ ": " ++ Error err).

(** [for _, fn := range comparisonValidationFuncs { ... }] *)
Definition runComparisons (fns : list comparisonValidation) (name shortPath : string)
    (baseValue validatedValue : string) (errorList : list error) : result (list error) :=
  forRange fns (fun fn errorList =>
    err <- fn baseValue validatedValue ;;
    match err with
    | Some e => Returned (errorList ++ [ruleFailure name shortPath e])
    | None => Returned errorList
    end) errorList.

(** [for _, fn := range simpleValidationFuncs { ... }] *)
Definition runSimples (fns : list simpleValidation) (name shortPath : string)
    (value : string) (errorList : list error) : result (list error) :=
  forRange fns (fun fn errorList =>
    match fn value with
    | Some e => Returned (errorList ++ [ruleFailure name shortPath e])
    | None => Returned errorList
    end) errorList.

Definition missingError (name shortPath : string) : error :=
  ResourceMissingError ("[missing] element named " ++ name ++ " in " ++ shortPath).

Definition noBaseValueError (name shortPath : string) : error :=
  ValidationError (name ++ " in " ++ shortPath ++ " does not have a base value.").

Definition arrayCountError (name shortPath : string) (actual expected : nat) : error :=
  ValidationError (name ++ " array in " ++ shortPath ++ " has " ++ itoa actual ++
                   " items, but it should have " ++ itoa expected).

(** The two rule lists built at the start of [validateResources]. *)
Definition comparisonValidationFuncs : list comparisonValidation :=
  [validateSimplePlaceholders; validatePositionalPlaceholders].
Definition simpleValidationFuncs : list simpleValidation :=
  [validatePotentialPlaceholder; validateNewlineCharacters].

Section ValidateResources.

Variables baseResources validatedResources : resourcesEl.
Variable shortPath : string.
Variable showMissing : bool.

(** Body of the first loop: the reverse-presence check of one translated
    string element. *)
Definition reversePresenceBody (validatedElem : stringEl) (errorList : list error)
    : result (list error) :=
  let hasBaseValue :=
    existsb (fun baseElem => String.eqb (stringEl_Name validatedElem) (stringEl_Name baseElem))
            (Strings baseResources) in
  if negb hasBaseValue then
    Returned (errorList ++ [noBaseValueError (stringEl_Name validatedElem) shortPath])
  else Returned errorList.

(** Body of the loop over the base string elements. *)
Definition stringBody (baseElem : stringEl) (errorList : list error)
    : result (list error) :=
  match findStringElement validatedResources (stringEl_Name baseElem) with
  | None =>
      if showMissing then
        Returned (errorList ++ [missingError (stringEl_Name baseElem) shortPath])
      else Returned errorList
  | Some validatedElem =>
      errorList <- runComparisons comparisonValidationFuncs (stringEl_Name baseElem)
                     shortPath (stringEl_Value baseElem) (stringEl_Value validatedElem)
                     errorList ;;
      runSimples simpleValidationFuncs (stringEl_Name baseElem) shortPath
        (stringEl_Value validatedElem) errorList
  end.

(** Body of [for i := range baseElem.Items]. *)
Definition itemBody (baseElem validatedElem : stringArrayEl) (i : nat)
    (errorList : list error) : result (list error) :=
  baseItem <- index (stringArrayEl_Items baseElem) i ;;
  validatedItem <- index (stringArrayEl_Items validatedElem) i ;;
  errorList <- runComparisons comparisonValidationFuncs (stringArrayEl_Name baseElem)
                 shortPath baseItem validatedItem errorList ;;
  runSimples simpleValidationFuncs (stringArrayEl_Name baseElem) shortPath
    validatedItem errorList.

(** Body of the loop over the base string-array elements. *)
Definition stringArrayBody (baseElem : stringArrayEl) (errorList : list error)
    : result (list error) :=
  match findStringArrayElement validatedResources (stringArrayEl_Name baseElem) with
  | None =>
      if showMissing then
        Returned (errorList ++ [missingError (stringArrayEl_Name baseElem) shortPath])
      else Returned errorList
  | Some validatedElem =>
      if negb (Nat.eqb (List.length (stringArrayEl_Items baseElem))
                       (List.length (stringArrayEl_Items validatedElem))) then
        Returned (errorList ++
          [arrayCountError (stringArrayEl_Name validatedElem) shortPath
             (List.length (stringArrayEl_Items validatedElem))
             (List.length (stringArrayEl_Items baseElem))])
      else
        forRange (seq 0 (List.length (stringArrayEl_Items baseElem)))
                 (itemBody baseElem validatedElem) errorList
  end.

(** Body of the loop over the plurals of the validated document. *)
Definition pluralBody (pluralsElem : pluralEl) (errorList : list error)
    : result (list error) :=
  forRange (pluralEl_Items pluralsElem) (fun pluralValue errorList =>
    runSimples simpleValidationFuncs (pluralEl_Name pluralsElem) shortPath
      (pluralItemEl_Value pluralValue) errorList) errorList.

Definition validateResources : result (list error) :=
  let errorList : list error := [] in
  errorList <- forRange (Strings validatedResources) reversePresenceBody errorList ;;
  errorList <- forRange (Strings baseResources) stringBody errorList ;;
  errorList <- forRange (StringArrays baseResources) stringArrayBody errorList ;;
  errorList <- forRange (Plurals validatedResources) pluralBody errorList ;;
  Returned errorList.

End ValidateResources.

(** ** [Validate] and the file system

    Reading files, globbing, XML decoding and path manipulation belong to
    Go's libraries; they are taken as given functions.  The calls made to the
    file system are recorded in a trace. *)

Inductive event : Type :=
| EvReadFile (path : string)
| EvGlob (pattern : string).

(** A computation that logs file-system calls and may panic. *)
Definition IO (A : Type) : Type := list event * result A.

Definition ioRet {A} (a : A) : IO A := ([], Returned a).

Definition ioBind {A B} (c : IO A) (k : A -> IO B) : IO B :=
  match c with
  | (t, Returned a) => let (t', r) := k a in (t ++ t', r)
  | (t, Panicked) => (t, Panicked)
  end.

Definition ioLift {A} (r : result A) : IO A := ([], r).

Notation "x <~ c ;; k" := (ioBind c (fun x => k))
  (at level 61, c at next level, right associativity) : go_scope.

Definition valuesDir (locale : string) : string :=
  if Nat.ltb 0 (String.length locale) then "values-" ++ locale else "values".

Fixpoint removeFirst (x : string) (paths : list string) : list string :=
  match paths with
  | [] => []
  | p :: rest => if String.eqb p x then rest else p :: removeFirst x rest
  end.

Section Validate.

(** [ioutil.ReadFile] *)
Variable ReadFile : string -> error + string.
(** [xml.Unmarshal] into a fresh [resourcesEl] *)
Variable Unmarshal : string -> error + resourcesEl.
(** [filepath.Glob] *)
Variable Glob : string -> error + list string.
(** [filepath.Join] *)
Variable Join : list string -> string.
(** [filepath.Rel] *)
Variable Rel : string -> string -> error + string.

Definition parseResourcesFile (path : string) : IO (error + resourcesEl) :=
  ([EvReadFile path],
   Returned match ReadFile path with
            | inl err => inl err
            | inr data => Unmarshal data
            end).

Definition parseResources (resDir localeName stringsFilename : string)
    : IO (error + resourcesEl) :=
  let path := Join [resDir; valuesDir localeName; stringsFilename] in
  parseResourcesFile path.

Definition glob (patt : string) : IO (error + list string) :=
  ([EvGlob patt], Returned (Glob patt)).

Definition getOtherStringsFilePaths (resDir exceptForLocale stringsFilename : string)
    : IO (error + list string) :=
  let patt := Join [resDir; "values-*"; stringsFilename] in
  r <~ glob patt ;;
  match r with
  | inl err => ioRet (inl err)
  | inr paths =>
      let patt2 := Join [resDir; "values"; stringsFilename] in
      r2 <~ glob patt2 ;;
      match r2 with
      | inl err => ioRet (inl err)
      | inr paths2 =>
          let paths := paths ++ paths2 in
          let exceptForPath := Join [resDir; valuesDir exceptForLocale; stringsFilename] in
          ioRet (inr (removeFirst exceptForPath paths))
      end
  end.

Definition extractShortPath (resDir stringsFilePath : string) : string :=
  match Rel resDir stringsFilePath with
  | inl _ => stringsFilePath
  | inr p => p
  end.

(** The loop [for _, path := range paths] of [Validate]. *)
Fixpoint validateLoop (baseResources : resourcesEl) (resDir : string)
    (showMissing : bool) (paths : list string) (errorList : list error)
    : IO (list error) :=
  match paths with
  | [] => ioRet errorList
  | path :: rest =>
      r <~ parseResourcesFile path ;;
      match r with
      | inl err => validateLoop baseResources resDir showMissing rest (errorList ++ [err])
      | inr resources =>
          let shortPath := extractShortPath resDir path in
          ers <~ ioLift (validateResources baseResources resources shortPath showMissing) ;;
          validateLoop baseResources resDir showMissing rest (errorList ++ ers)
      end
  end.

Definition Validate (resDir baseLocale stringsFilename : string) (showMissing : bool)
    : IO (list error) :=
  let errorList : list error := [] in
  r <~ parseResources resDir baseLocale stringsFilename ;;
  match r with
  | inl err => ioRet (errorList ++ [err])
  | inr baseResources =>
      r <~ getOtherStringsFilePaths resDir baseLocale stringsFilename ;;
      match r with
      | inl err => ioRet (errorList ++ [err])
      | inr paths => validateLoop baseResources resDir showMissing paths errorList
      end
  end.

End Validate.

(** ** The command line: [validateStrings] of package [main]

    [validateStrings] checks its two required flags, calls [Validate],
    prints the numbered findings and a summary on standard output, and
    exits with the number of findings. *)

(** The loop [for _, e := range errorList] of [validateStrings]: the lines
    printed and the final value of [errorCount]. *)
Fixpoint printLoop (errorList : list error) (errorCount : nat) : list string * nat :=
  match errorList with
  | [] => ([], errorCount)
  | e :: rest =>
      let errorCount := errorCount + 1 in
      let (out, n) := printLoop rest errorCount in
      (("[" ++ itoa errorCount ++ "] " ++ Error e ++ String newline "")%string :: out, n)
  end.

(** What a run of the process shows: whether the usage text was printed,
    the chunks written to standard output, and the argument of [os.Exit]. *)
Record processRun := {
  usageShown : bool;
  stdout : list string;
  exitCode : Z
}.

Section Main.

Variable ReadFile : string -> error + string.
Variable Unmarshal : string -> error + resourcesEl.
Variable Glob : string -> error + list string.
Variable Join : list string -> string.
Variable Rel : string -> string -> error + string.

Definition validateStrings (projectResDirArg baseLocaleArg stringsFileNameArg : string)
    (showMissingArg : bool) : IO processRun :=
  if negb (Nat.ltb 0 (String.length projectResDirArg) &&
           Nat.ltb 0 (String.length stringsFileNameArg)) then
    ioRet {| usageShown := true; stdout := []; exitCode := (-1)%Z |}
  else
    errorList <~ Validate ReadFile Unmarshal Glob Join Rel projectResDirArg baseLocaleArg
                   stringsFileNameArg showMissingArg ;;
    let (out, errorCount) := printLoop errorList 0 in
    let summary :=
      if Nat.ltb 0 errorCount then
        ("Found " ++ itoa errorCount ++ " errors." ++ String newline "")%string
      else ("No errors found." ++ String newline "")%string in
    ioRet {| usageShown := false; stdout := out ++ [summary];
             exitCode := Z.of_nat errorCount |}.

End Main.

(** ** The translation download: directory naming of package [crowdin] *)

(** ["-"] *)
Definition hyphenRegexp : regex := [One (isChar "-")].

(** [ReplaceAllLiteralString r s repl]: the replacement text is taken as it
    is. *)
Definition ReplaceAllLiteralString (r : regex) (s repl : string) : string :=
  replaceAllFrom r repl 0 s.

(** The local [valuesDirName] of [copyStringsToResources]. *)
Definition valuesDirName (localeIdentifier : string) : string :=
  "values-" ++ ReplaceAllLiteralString hyphenRegexp localeIdentifier "-r".

(** * Vocabulary of the properties

    Auxiliary notions used to state and prove the properties below, and the
    example documents they are checked on. *)

(** What a loop over [l] emits when each body only appends to the list. *)
Fixpoint collect {A} (f : A -> result (list error)) (l : list A) : result (list error) :=
  match l with
  | [] => Returned []
  | x :: l' => r <- f x ;; rs <- collect f l' ;; Returned (r ++ rs)
  end.

Definition emitsOnly {A} (body : A -> list error -> result (list error)) : Prop :=
  forall x acc, body x acc = (r <- body x [] ;; Returned (acc ++ r)).

Definition dup (m : string) : list string := [m; m].

(** First position at which two token lists differ, counted from [i]. *)
Fixpoint firstMismatch (i : nat) (B T : list string) : option (nat * string * string) :=
  match B, T with
  | b :: B', t :: T' =>
      if String.eqb b t then firstMismatch (S i) B' T' else Some (i, b, t)
  | _, _ => None
  end.

Definition placeholderMismatch (i : nat) (actual expected : string) : error :=
  errorString ("The target string placeholder #" ++ itoa i ++ " is " ++ actual ++
               ", while it probably should be " ++ expected).

(** Every base token occurs among the target tokens. *)
Definition allFound (B T : list string) : bool :=
  forallb (fun m => existsb (String.eqb m) T) B.

(** A literal [%] immediately followed by a whitespace character. *)
Definition hasPercentSpace (s : string) : Prop :=
  exists pre c post,
    s = (pre ++ String "%" (String c post))%string /\ isSpace c = true.

Definition hasNewline (s : string) : Prop :=
  exists pre post, s = (pre ++ String newline post)%string.

(** The findings of the single-value rules [fns] on one value. *)
Definition simpleFindings (fns : list simpleValidation) (name shortPath value : string)
    : list error :=
  flat_map (fun fn : simpleValidation =>
              match fn value with
              | Some e => [ruleFailure name shortPath e]
              | None => []
              end) fns.

(** A value that passes both single-value rules. *)
Definition passesSimpleRules (value : string) : Prop :=
  validatePotentialPlaceholder value = None /\ validateNewlineCharacters value = None.

Definition isMissing (e : error) : bool :=
  match e with ResourceMissingError _ => true | _ => false end.

(** Number of [ResourceMissingError] findings in a list. *)
Definition countMissing (errs : list error) : nat := List.length (filter isMissing errs).

(** The reverse-presence findings for the translated string elements [vs]. *)
Definition reverseFindings (baseResources : resourcesEl) (shortPath : string)
    (vs : list stringEl) : list error :=
  flat_map (fun validatedElem =>
              if existsb (fun baseElem =>
                            String.eqb (stringEl_Name validatedElem) (stringEl_Name baseElem))
                         (Strings baseResources)
              then [] else [noBaseValueError (stringEl_Name validatedElem) shortPath]) vs.

(** The findings for one plurals element of the translated document. *)
Definition pluralEntryFindings (shortPath : string) (pluralsElem : pluralEl) : list error :=
  flat_map (fun pluralValue =>
              simpleFindings simpleValidationFuncs (pluralEl_Name pluralsElem) shortPath
                (pluralItemEl_Value pluralValue))
           (pluralEl_Items pluralsElem).

Definition pluralFindings (shortPath : string) (ps : list pluralEl) : list error :=
  flat_map (pluralEntryFindings shortPath) ps.

(** Example documents. *)

Definition percentOffDoc : resourcesEl :=
  {| Strings := [ {| stringEl_Name := "discount"; stringEl_Value := "50% off" |} ];
     Plurals := [];
     StringArrays := [] |}.

Definition cleanDoc : resourcesEl :=
  {| Strings := [ {| stringEl_Name := "greeting"; stringEl_Value := "Hello %1$s, %d new" |};
                  {| stringEl_Name := "bye"; stringEl_Value := "Bye" |} ];
     Plurals := [ {| pluralEl_Name := "items";
                     pluralEl_Items := [ {| Quantity := "one"; pluralItemEl_Value := "%d item" |};
                                         {| Quantity := "other"; pluralItemEl_Value := "%d items" |} ] |} ];
     StringArrays := [ {| stringArrayEl_Name := "sizes";
                          stringArrayEl_Items := ["small"; "large %s"] |} ] |}.

Ltac in_cases :=
  repeat match goal with
         | H : In _ (_ :: _) |- _ => destruct H as [H|H]; [try subst|]
         | H : In _ [] |- _ => destruct H
         | H : _ \/ _ |- _ => destruct H as [H|H]; [try subst|]
         | H : False |- _ => destruct H
         | H : _ = _ |- _ => progress subst
         end.

Definition stringAbsent (v : resourcesEl) (e : stringEl) : bool :=
  match findStringElement v (stringEl_Name e) with None => true | Some _ => false end.

Definition stringArrayAbsent (v : resourcesEl) (a : stringArrayEl) : bool :=
  match findStringArrayElement v (stringArrayEl_Name a) with
  | None => true
  | Some _ => false
  end.

Definition pluralAbsent (v : resourcesEl) (p : pluralEl) : bool :=
  negb (existsb (fun q => String.eqb (pluralEl_Name q) (pluralEl_Name p)) (Plurals v)).

(** Base entries without a counterpart in the translated document [v]. *)
Definition absentStrings (b v : resourcesEl) : nat :=
  List.length (filter (stringAbsent v) (Strings b)).
Definition absentStringArrays (b v : resourcesEl) : nat :=
  List.length (filter (stringArrayAbsent v) (StringArrays b)).
Definition absentPlurals (b v : resourcesEl) : nat :=
  List.length (filter (pluralAbsent v) (Plurals b)).
Definition absentBaseEntries (b v : resourcesEl) : nat :=
  absentStrings b v + absentStringArrays b v + absentPlurals b v.

Definition emptyDoc : resourcesEl := {| Strings := []; Plurals := []; StringArrays := [] |}.

Definition pluralOnlyBase : resourcesEl :=
  {| Strings := [];
     Plurals := [ {| pluralEl_Name := "items";
                     pluralEl_Items := [ {| Quantity := "one"; pluralItemEl_Value := "%d item" |};
                                         {| Quantity := "other"; pluralItemEl_Value := "%d items" |} ] |} ];
     StringArrays := [] |}.

Definition shopBase : resourcesEl :=
  {| Strings := [ {| stringEl_Name := "title"; stringEl_Value := "Shop" |};
                  {| stringEl_Name := "subtitle"; stringEl_Value := "Open %s" |} ];
     Plurals := [ {| pluralEl_Name := "items";
                     pluralEl_Items := [ {| Quantity := "other"; pluralItemEl_Value := "%d items" |} ] |} ];
     StringArrays := [ {| stringArrayEl_Name := "sizes";
                          stringArrayEl_Items := ["small"; "large"] |} ] |}.

Definition shopGerman : resourcesEl :=
  {| Strings := [ {| stringEl_Name := "title"; stringEl_Value := "Laden" |} ];
     Plurals := [];
     StringArrays := [] |}.

Definition orphanPluralDoc : resourcesEl :=
  {| Strings := [];
     Plurals := [ {| pluralEl_Name := "apples";
                     pluralEl_Items := [ {| Quantity := "one"; pluralItemEl_Value := "% apple" |} ] |} ];
     StringArrays := [] |}.

Definition sizesOnlyBase : resourcesEl :=
  {| Strings := []; Plurals := [];
     StringArrays := [ {| stringArrayEl_Name := "sizes";
                          stringArrayEl_Items := ["small"; "large"] |} ] |}.

Definition welcomeBase : resourcesEl :=
  {| Strings := [ {| stringEl_Name := "welcome"; stringEl_Value := "%1$s" |} ];
     Plurals := []; StringArrays := [] |}.

Definition welcomeWithExtra : resourcesEl :=
  {| Strings := [ {| stringEl_Name := "welcome"; stringEl_Value := "%2$s" |};
                  {| stringEl_Name := "extra_key"; stringEl_Value := "Extra" |} ];
     Plurals := []; StringArrays := [] |}.

Definition priceBase : resourcesEl :=
  {| Strings := [ {| stringEl_Name := "price"; stringEl_Value := "%1$s" |} ];
     Plurals := [];
     StringArrays := [ {| stringArrayEl_Name := "sizes";
                          stringArrayEl_Items := ["S"; "M"; "L"] |} ] |}.

Definition priceShortArray : resourcesEl :=
  {| Strings := [ {| stringEl_Name := "price"; stringEl_Value := "%2$s" |} ];
     Plurals := [];
     StringArrays := [ {| stringArrayEl_Name := "sizes";
                          stringArrayEl_Items := ["S"; "M"] |} ] |}.

(** What one translated file contributes to the result of [Validate]: its
    parse error, or the findings of its validation. *)
Definition fileFindings (ReadFile : string -> error + string)
    (Unmarshal : string -> error + resourcesEl)
    (Rel : string -> string -> error + string)
    (baseResources : resourcesEl) (resDir : string) (showMissing : bool)
    (path : string) : result (list error) :=
  r <- snd (parseResourcesFile ReadFile Unmarshal path) ;;
  match r with
  | inl err => Returned [err]
  | inr resources =>
      validateResources baseResources resources
        (extractShortPath Rel resDir path) showMissing
  end.

(** The findings that are not [ResourceMissingError]s. *)
Definition dropMissing (errs : list error) : list error :=
  filter (fun e => negb (isMissing e)) errs.

(** A finding of one of the validator's two own kinds whose message names
    the file as [" in " ++ shortPath]. *)
Definition findingOf (shortPath : string) (e : error) : Prop :=
  (exists msg, e = ValidationError msg \/ e = ResourceMissingError msg) /\
  exists pre post, Error e = (pre ++ " in " ++ shortPath ++ post)%string.

(** The characters of a string. *)
Definition chars (s : string) : list ascii := list_ascii_of_string s.

Ltac no_newline_literal :=
  cbn; intros H; repeat (destruct H as [H|H]; [discriminate|]); exact H.

Definition duplicateNamesDoc : resourcesEl :=
  {| Strings := [ {| stringEl_Name := "a"; stringEl_Value := "1" |};
                  {| stringEl_Name := "x"; stringEl_Value := "first" |};
                  {| stringEl_Name := "x"; stringEl_Value := "second" |} ];
     Plurals := []; StringArrays := [] |}.

Definition demoReadFile (path : string) : error + string :=
  if String.eqb path "res/values/strings.xml" then inr "base"
  else if String.eqb path "res/values-de/strings.xml" then inr "de"
  else inl (ExternalError ("open " ++ path ++ ": permission denied")).

Definition demoUnmarshal (data : string) : error + resourcesEl :=
  if String.eqb data "base" then inr shopBase
  else if String.eqb data "de" then inr shopGerman
  else inl (ExternalError "XML syntax error").

Definition demoGlob (patt : string) : error + list string :=
  if String.eqb patt "res/values-*/strings.xml"
  then inr ["res/values-fr/strings.xml"; "res/values-de/strings.xml"]
  else inr ["res/values/strings.xml"].

Definition demoRel (resDir path : string) : error + string :=
  inr (substring (S (String.length resDir)) (String.length path) path).

(** * Properties *)

(** ** Loops *)

Lemma forRange_app {A S} (body : A -> S -> result S) (l1 l2 : list A) (st : S) :
  forRange (l1 ++ l2) body st = (st' <- forRange l1 body st ;; forRange l2 body st').
Proof.
  revert st; induction l1 as [|x l1 IH]; intros st; simpl; [reflexivity|].
  destruct (body x st) as [st'|]; simpl; [apply IH | reflexivity].
Qed.

Lemma forRange_ext {A S} (body body' : A -> S -> result S) (l : list A) (st : S) :
  (forall x st, In x l -> body x st = body' x st) ->
  forRange l body st = forRange l body' st.
Proof.
  revert st; induction l as [|x l IH]; intros st H; simpl; [reflexivity|].
  rewrite (H x st (or_introl eq_refl)).
  destruct (body' x st) as [st'|]; simpl; [|reflexivity].
  apply IH; intros y st0 Hy; apply H; right; exact Hy.
Qed.

Lemma forRange_unchanged {A S} (body : A -> S -> result S) (l : list A) (st : S) :
  (forall x st, In x l -> body x st = Returned st) ->
  forRange l body st = Returned st.
Proof.
  induction l as [|x l IH]; intros H; simpl; [reflexivity|].
  rewrite (H x st (or_introl eq_refl)); simpl.
  apply IH; intros y st0 Hy; apply H; right; exact Hy.
Qed.

Lemma forRange_collect {A} (body : A -> list error -> result (list error)) l acc :
  emitsOnly body ->
  forRange l body acc = (rs <- collect (fun x => body x []) l ;; Returned (acc ++ rs)).
Proof.
  intros Hb; revert acc; induction l as [|x l IH]; intros acc; simpl.
  - now rewrite app_nil_r.
  - rewrite (Hb x acc). destruct (body x []) as [r|]; simpl; [|reflexivity].
    rewrite IH. destruct (collect _ l) as [rs|]; simpl; [|reflexivity].
    now rewrite app_assoc.
Qed.

Lemma forRange_emitsOnly {A} (body : A -> list error -> result (list error)) l acc :
  emitsOnly body ->
  forRange l body acc = (r <- forRange l body [] ;; Returned (acc ++ r)).
Proof.
  intros Hb. rewrite (forRange_collect l acc Hb), (forRange_collect l [] Hb).
  destruct (collect _ l); reflexivity.
Qed.

Lemma collect_app {A} (f : A -> result (list error)) l1 l2 :
  collect f (l1 ++ l2) =
  (r1 <- collect f l1 ;; r2 <- collect f l2 ;; Returned (r1 ++ r2)).
Proof.
  induction l1 as [|x l1 IH]; simpl.
  - destruct (collect f l2); reflexivity.
  - destruct (f x) as [r|]; simpl; [|reflexivity]. rewrite IH.
    destruct (collect f l1) as [r1|]; simpl; [|reflexivity].
    destruct (collect f l2) as [r2|]; simpl; [|reflexivity].
    now rewrite app_assoc.
Qed.

Lemma collect_ext {A} (f g : A -> result (list error)) l :
  (forall x, In x l -> f x = g x) -> collect f l = collect g l.
Proof.
  induction l as [|x l IH]; intros H; simpl; [reflexivity|].
  rewrite (H x (or_introl eq_refl)), IH; [reflexivity|].
  intros y Hy; apply H; right; exact Hy.
Qed.

(** ** Tokens found by the regular expressions *)

Lemma FindAllStringSubmatch_length r s :
  List.length (FindAllStringSubmatch r s) = List.length (FindAllString r s).
Proof. unfold FindAllStringSubmatch. apply length_map. Qed.

Lemma index_dup_1 m : index (dup m) 1 = Returned m.
Proof. reflexivity. Qed.

(** *** The named-placeholder rule *)

Lemma index_map_dup_app pre t T :
  index (map dup (pre ++ t :: T)) (List.length pre) = Returned (dup t).
Proof.
  unfold index. rewrite nth_error_map, nth_error_app2, Nat.sub_diag by lia.
  reflexivity.
Qed.

Lemma simpleLoop_spec B : forall T pre,
  List.length B = List.length T ->
  simpleLoop (map dup (pre ++ T)) (List.length pre) (map dup B) =
  Returned match firstMismatch (List.length pre) B T with
           | Some (i, b, t) => Some (placeholderMismatch i t b)
           | None => None
           end.
Proof.
  induction B as [|b B IH]; intros [|t T] pre Hlen; simpl in Hlen; try discriminate.
  - reflexivity.
  - cbn [map simpleLoop firstMismatch].
    rewrite index_map_dup_app. cbn [bind index nth_error dup].
    destruct (String.eqb b t) eqn:E; cbn [negb].
    + specialize (IH T (pre ++ [t])).
      rewrite <- app_assoc, length_app, Nat.add_comm in IH. cbn in IH.
      apply IH. now injection Hlen.
    + reflexivity.
Qed.

Lemma firstMismatch_None i B T :
  List.length B = List.length T -> (firstMismatch i B T = None <-> B = T).
Proof.
  revert i T; induction B as [|b B IH]; intros i [|t T] Hlen; simpl in *; try discriminate.
  - tauto.
  - destruct (String.eqb_spec b t) as [->|Hne].
    + rewrite IH by congruence. split; congruence.
    + split; [discriminate | congruence].
Qed.

Lemma firstMismatch_at B : forall T i0 i b t,
  firstn i B = firstn i T ->
  nth_error B i = Some b -> nth_error T i = Some t -> b <> t ->
  firstMismatch i0 B T = Some (i0 + i, b, t).
Proof.
  induction B as [|b0 B IH]; intros [|t0 T] i0 [|i] b t Hpre Hb Ht Hne;
    simpl in *; try discriminate.
  - injection Hb as ->. injection Ht as ->.
    destruct (String.eqb_spec b t); [contradiction|]. now rewrite Nat.add_0_r.
  - injection Hpre as -> Hpre. rewrite String.eqb_refl.
    rewrite (IH T (S i0) i b t Hpre Hb Ht Hne). f_equal. f_equal. f_equal. lia.
Qed.

(** [validateSimplePlaceholders] in terms of the two token lists; it never
    panics. *)
Lemma validateSimplePlaceholders_spec b t :
  let B := FindAllString SimplePlaceholderRegex b in
  let T := FindAllString SimplePlaceholderRegex t in
  validateSimplePlaceholders b t =
  Returned
    (if Nat.eqb (List.length B) (List.length T) then
       match firstMismatch 0 B T with
       | Some (i, eb, et) => Some (placeholderMismatch i et eb)
       | None => None
       end
     else Some (countMismatch (List.length T) (List.length B))).
Proof.
  intros B T. unfold validateSimplePlaceholders.
  rewrite !FindAllStringSubmatch_length. fold B T.
  destruct (Nat.eqb_spec (List.length B) (List.length T)) as [Hlen|Hlen]; cbn [negb].
  - destruct (Nat.eqb_spec (List.length B) 0) as [HB|HB]; cbn [andb].
    + rewrite <- Hlen, HB. cbn [Nat.eqb].
      destruct B; [|discriminate]. reflexivity.
    + unfold FindAllStringSubmatch. fold B T.
      apply (simpleLoop_spec B T [] Hlen).
  - destruct (Nat.eqb_spec (List.length B) 0) as [HB|HB]; cbn [andb]; [|reflexivity].
    destruct (Nat.eqb_spec (List.length T) 0) as [HT|HT]; [lia | reflexivity].
Qed.

Lemma validateSimplePlaceholders_refl s : validateSimplePlaceholders s s = Returned None.
Proof.
  rewrite validateSimplePlaceholders_spec. cbv zeta. rewrite Nat.eqb_refl.
  assert (H : firstMismatch 0 (FindAllString SimplePlaceholderRegex s)
                (FindAllString SimplePlaceholderRegex s) = None)
    by now apply firstMismatch_None.
  now rewrite H.
Qed.

(** *** The positional-placeholder rule *)

Lemma searchLoop_spec m : forall T acc,
  exists r, searchLoop (dup m) (map dup T) acc = Returned r /\
            (r = None <-> acc = None /\ existsb (String.eqb m) T = false).
Proof.
  induction T as [|t T IH]; intros acc; cbn [map searchLoop existsb].
  - exists acc; split; [reflexivity | tauto].
  - cbn [bind index nth_error dup].
    destruct (IH (if String.eqb m t then Some (dup t) else acc)) as (r & Hr & Hiff).
    exists r; split; [exact Hr|].
    rewrite Hiff. destruct (String.eqb m t); cbn [orb]; split; intros [H1 H2];
      try discriminate; tauto.
Qed.

Lemma positionalLoop_spec T : forall B i,
  positionalLoop (map dup T) i (map dup B) =
  if allFound B T then Returned None else Panicked.
Proof.
  induction B as [|m B IH]; intros i; cbn [map positionalLoop allFound forallb].
  - reflexivity.
  - destruct (searchLoop_spec m T None) as (r & Hr & Hiff).
    rewrite Hr; cbn [bind].
    destruct r as [found|].
    + destruct (existsb (String.eqb m) T) eqn:E; cbn [andb].
      * apply IH.
      * destruct Hiff as [_ Hiff]. discriminate Hiff. now split.
    + destruct Hiff as [Hiff _]. destruct (Hiff eq_refl) as [_ E].
      rewrite E. reflexivity.
Qed.

(** [validatePositionalPlaceholders] in terms of the two token lists: with
    equal, non-zero counts it either passes or panics. *)
Lemma validatePositionalPlaceholders_spec b t :
  let B := FindAllString PositionalPlaceholderRegex b in
  let T := FindAllString PositionalPlaceholderRegex t in
  validatePositionalPlaceholders b t =
  if Nat.eqb (List.length B) (List.length T) then
    if allFound B T then Returned None else Panicked
  else Returned (Some (countMismatch (List.length T) (List.length B))).
Proof.
  intros B T. unfold validatePositionalPlaceholders.
  rewrite !FindAllStringSubmatch_length. fold B T.
  destruct (Nat.eqb_spec (List.length B) (List.length T)) as [Hlen|Hlen]; cbn [negb].
  - destruct (Nat.eqb_spec (List.length B) 0) as [HB|HB]; cbn [andb].
    + rewrite <- Hlen, HB. cbn [Nat.eqb].
      destruct B; [|discriminate]. reflexivity.
    + unfold FindAllStringSubmatch. fold B T. apply positionalLoop_spec.
  - destruct (Nat.eqb_spec (List.length B) 0) as [HB|HB]; cbn [andb]; [|reflexivity].
    destruct (Nat.eqb_spec (List.length T) 0) as [HT|HT]; [lia | reflexivity].
Qed.

Lemma allFound_refl B : allFound B B = true.
Proof.
  unfold allFound. apply forallb_forall. intros m Hm.
  apply existsb_exists. exists m. split; [exact Hm | apply String.eqb_refl].
Qed.

Lemma validatePositionalPlaceholders_refl s :
  validatePositionalPlaceholders s s = Returned None.
Proof.
  rewrite validatePositionalPlaceholders_spec. cbv zeta.
  now rewrite Nat.eqb_refl, allFound_refl.
Qed.

(** *** The single-value rules *)

Lemma matchHere_potential s :
  matchHere PotentialPlaceholderRegex s <> None <->
  exists c post, s = String "%" (String c post) /\ isSpace c = true.
Proof.
  destruct s as [|a [|c post]]; cbn [matchHere PotentialPlaceholderRegex].
  - split; [congruence | intros (c & post & H & _); discriminate].
  - unfold isChar. destruct (Ascii.eqb_spec a "%"); cbn [option_map];
      (split; [congruence | intros (c & post & H & _); discriminate]).
  - unfold isChar. destruct (Ascii.eqb_spec a "%") as [->|Hne].
    + destruct (isSpace c) eqn:E; cbn [option_map].
      * split; [intros _; now exists c, post | discriminate].
      * split; [congruence|]. intros (c' & post' & H & Hc). injection H as -> _.
        congruence.
    + split; [congruence|]. intros (c' & post' & H & _). injection H as -> _ _.
      now elim Hne.
Qed.

Lemma findAll_potential s :
  FindAllString PotentialPlaceholderRegex s <> [] <-> hasPercentSpace s.
Proof.
  unfold FindAllString, hasPercentSpace.
  induction s as [|a s IH]; cbn [findAllFrom].
  - split; [congruence|]. intros ([|? pre] & c & post & H & _); discriminate.
  - pose proof (matchHere_potential (String a s)) as Hm.
    destruct (matchHere PotentialPlaceholderRegex (String a s)) as [[m rest]|].
    + split; [|discriminate]. intros _.
      destruct Hm as [Hm _]. destruct Hm as (c & post & H & Hc); [discriminate|].
      exists EmptyString, c, post. now split.
    + rewrite IH. split.
      * intros (pre & c & post & H & Hc). exists (String a pre), c, post.
        split; [cbn; now rewrite H | exact Hc].
      * intros ([|a' pre] & c & post & H & Hc).
        -- exfalso. destruct Hm as [_ Hm]. apply Hm; [|reflexivity].
           exists c, post. now split.
        -- cbn in H. injection H as -> ->. now exists pre, c, post.
Qed.

Lemma validatePotentialPlaceholder_fails_iff s :
  validatePotentialPlaceholder s <> None <-> hasPercentSpace s.
Proof.
  rewrite <- findAll_potential. unfold validatePotentialPlaceholder.
  rewrite FindAllStringSubmatch_length.
  destruct (FindAllString PotentialPlaceholderRegex s); cbn; split; congruence.
Qed.

Lemma findAll_newline s :
  FindAllString NewLineRegex s <> [] <-> hasNewline s.
Proof.
  unfold FindAllString, hasNewline.
  induction s as [|a s IH]; cbn [findAllFrom].
  - split; [congruence|]. intros ([|? pre] & post & H); discriminate.
  - cbn [matchHere NewLineRegex]. unfold isChar.
    destruct (Ascii.eqb_spec a newline) as [->|Hne]; cbn [option_map consFst].
    + split; [|discriminate]. intros _. now exists EmptyString, s.
    + rewrite IH. split.
      * intros (pre & post & H). exists (String a pre), post. cbn; now rewrite H.
      * intros ([|a' pre] & post & H); cbn in H; injection H as -> ->.
        -- now elim Hne.
        -- now exists pre, post.
Qed.

Lemma validateNewlineCharacters_fails_iff s :
  validateNewlineCharacters s <> None <-> hasNewline s.
Proof.
  rewrite <- findAll_newline. unfold validateNewlineCharacters.
  rewrite FindAllStringSubmatch_length.
  destruct (FindAllString NewLineRegex s); cbn; split; congruence.
Qed.

(** ** The rule runners *)

Lemma runSimples_spec fns name sp value : forall acc,
  runSimples fns name sp value acc = Returned (acc ++ simpleFindings fns name sp value).
Proof.
  unfold runSimples, simpleFindings.
  induction fns as [|fn fns IH]; intros acc; cbn [forRange flat_map].
  - now rewrite app_nil_r.
  - destruct (fn value) as [e|]; cbn [bind]; rewrite IH.
    + now rewrite <- app_assoc.
    + reflexivity.
Qed.

Lemma runComparisons_emitsOnly fns name sp b v acc :
  runComparisons fns name sp b v acc =
  (r <- runComparisons fns name sp b v [] ;; Returned (acc ++ r)).
Proof.
  unfold runComparisons. apply forRange_emitsOnly.
  intros fn acc0. destruct (fn b v) as [[e|]|]; cbn [bind app]; try reflexivity.
  now rewrite app_nil_r.
Qed.

Lemma simpleFindings_passes name sp value :
  passesSimpleRules value -> simpleFindings simpleValidationFuncs name sp value = [].
Proof.
  intros [H1 H2]. unfold simpleFindings, simpleValidationFuncs. cbn [flat_map].
  now rewrite H1, H2.
Qed.

Lemma runComparisons_refl name sp value acc :
  runComparisons comparisonValidationFuncs name sp value value acc = Returned acc.
Proof.
  unfold runComparisons, comparisonValidationFuncs. cbn [forRange].
  rewrite validateSimplePlaceholders_refl. cbn [bind].
  rewrite validatePositionalPlaceholders_refl. reflexivity.
Qed.

(** ** The four loops of [validateResources] *)

Lemma countMissing_app l1 l2 : countMissing (l1 ++ l2) = countMissing l1 + countMissing l2.
Proof. unfold countMissing. now rewrite filter_app, length_app. Qed.

Lemma countMissing_pos e errs : In e errs -> isMissing e = true -> 0 < countMissing errs.
Proof.
  intros Hin He. unfold countMissing.
  assert (H : In e (filter isMissing errs)) by (apply filter_In; now split).
  destruct (filter isMissing errs); [contradiction | cbn; lia].
Qed.

Lemma reverse_loop_spec b sp vs : forall acc,
  forRange vs (reversePresenceBody b sp) acc = Returned (acc ++ reverseFindings b sp vs).
Proof.
  unfold reverseFindings.
  induction vs as [|ve vs IH]; intros acc; cbn [forRange flat_map].
  - now rewrite app_nil_r.
  - unfold reversePresenceBody at 1.
    destruct (existsb _ (Strings b)); cbn [negb bind app]; rewrite IH.
    + reflexivity.
    + now rewrite <- app_assoc.
Qed.

Lemma pluralBody_spec sp pe acc :
  pluralBody sp pe acc = Returned (acc ++ pluralEntryFindings sp pe).
Proof.
  unfold pluralBody, pluralEntryFindings.
  revert acc; induction (pluralEl_Items pe) as [|it its IH]; intros acc;
    cbn [forRange flat_map].
  - now rewrite app_nil_r.
  - rewrite runSimples_spec. cbn [bind]. rewrite IH. now rewrite <- app_assoc.
Qed.

Lemma plural_loop_spec sp ps : forall acc,
  forRange ps (pluralBody sp) acc = Returned (acc ++ pluralFindings sp ps).
Proof.
  unfold pluralFindings.
  induction ps as [|pe ps IH]; intros acc; cbn [forRange flat_map].
  - now rewrite app_nil_r.
  - rewrite pluralBody_spec. cbn [bind]. rewrite IH. now rewrite <- app_assoc.
Qed.

Lemma stringBody_emitsOnly v sp sm : emitsOnly (stringBody v sp sm).
Proof.
  intros e acc. unfold stringBody.
  destruct (findStringElement v (stringEl_Name e)) as [ve|].
  - rewrite runComparisons_emitsOnly.
    destruct (runComparisons _ _ _ _ _ []) as [r|]; cbn [bind]; [|reflexivity].
    rewrite !runSimples_spec. cbn [bind app]. now rewrite app_assoc.
  - destruct sm; cbn [bind app]; [reflexivity | now rewrite app_nil_r].
Qed.

Lemma itemBody_emitsOnly sp be ve : emitsOnly (itemBody sp be ve).
Proof.
  intros i acc. unfold itemBody.
  destruct (index (stringArrayEl_Items be) i) as [bi|]; cbn [bind]; [|reflexivity].
  destruct (index (stringArrayEl_Items ve) i) as [vi|]; cbn [bind]; [|reflexivity].
  rewrite runComparisons_emitsOnly.
  destruct (runComparisons _ _ _ _ _ []) as [r|]; cbn [bind]; [|reflexivity].
  rewrite !runSimples_spec. cbn [bind app]. now rewrite app_assoc.
Qed.

Lemma stringArrayBody_emitsOnly v sp sm : emitsOnly (stringArrayBody v sp sm).
Proof.
  intros e acc. unfold stringArrayBody.
  destruct (findStringArrayElement v (stringArrayEl_Name e)) as [ve|].
  - destruct (negb _).
    + reflexivity.
    + apply forRange_emitsOnly, itemBody_emitsOnly.
  - destruct sm; cbn [bind app]; [reflexivity | now rewrite app_nil_r].
Qed.

(** [validateResources] as the concatenation of what its four loops emit. *)
Lemma validateResources_phases b v sp sm :
  validateResources b v sp sm =
  (st <- collect (fun e => stringBody v sp sm e []) (Strings b) ;;
   sa <- collect (fun e => stringArrayBody v sp sm e []) (StringArrays b) ;;
   Returned (reverseFindings b sp (Strings v) ++ st ++ sa ++
             pluralFindings sp (Plurals v))).
Proof.
  unfold validateResources. rewrite reverse_loop_spec. cbn [bind app].
  rewrite (forRange_collect _ _ (stringBody_emitsOnly v sp sm)).
  destruct (collect _ (Strings b)) as [st|]; cbn [bind]; [|reflexivity].
  rewrite (forRange_collect _ _ (stringArrayBody_emitsOnly v sp sm)).
  destruct (collect _ (StringArrays b)) as [sa|]; cbn [bind]; [|reflexivity].
  rewrite plural_loop_spec. cbn [bind]. now rewrite <- !app_assoc.
Qed.

(** * The claims *)

(** ** The pairwise and single-value rules *)

(** C1 (the code departs from the claim).  Whenever the two values have
    equal positional-placeholder counts and some base token has no equal
    token among the translated ones, the rule evaluates [foundMatch[1]] on
    the nil [foundMatch] while building its message: it panics, and returns
    no failure at all.  This is so on base ["%1$s"] against translated
    ["%2$s"]. *)
Theorem positional_missing_token_panics (b t m : string) :
  List.length (FindAllString PositionalPlaceholderRegex b) =
  List.length (FindAllString PositionalPlaceholderRegex t) ->
  In m (FindAllString PositionalPlaceholderRegex b) ->
  ~ In m (FindAllString PositionalPlaceholderRegex t) ->
  validatePositionalPlaceholders b t = Panicked.
Proof.
  intros Hlen Hin Hnot. rewrite validatePositionalPlaceholders_spec. cbv zeta.
  rewrite Hlen, Nat.eqb_refl.
  destruct (allFound _ _) eqn:E; [|reflexivity].
  exfalso. apply Hnot. unfold allFound in E.
  rewrite forallb_forall in E. specialize (E m Hin).
  apply existsb_exists in E. destruct E as (x & Hx & Heq).
  apply String.eqb_eq in Heq. now subst.
Qed.

Lemma positional_missing_token_panics_witness :
  validatePositionalPlaceholders "%1$s" "%2$s" = Panicked.
Proof.
  apply (@positional_missing_token_panics "%1$s" "%2$s" "%1$s").
  - reflexivity.
  - left; reflexivity.
  - intros [H|[]]; discriminate H.
Defined.

(** C5.  The named-placeholder rule compares the [%]-letter tokens of the
    two values index by index: ["%s and %d"] against ["%d and %s"] fails at
    index 0 (expected [%s], got [%d]); ["%s"] against ["%s"] passes; ["%s"]
    against the empty value fails with count 0 against 1.  In general the
    rule passes exactly when the two token sequences are equal; with unequal
    counts it reports both counts, and with equal counts it reports the
    first index at which the tokens differ, with the actual and the expected
    token. *)
Theorem named_placeholders_compared_by_index :
  validateSimplePlaceholders "%s and %d" "%d and %s" =
    Returned (Some (errorString
      "The target string placeholder #0 is %d, while it probably should be %s"))
  /\ validateSimplePlaceholders "%s" "%s" = Returned None
  /\ validateSimplePlaceholders "%s" "" =
    Returned (Some (errorString
      "The target string has 0 placeholder(s), while it should probably have 1"))
  /\ (forall b t,
        validateSimplePlaceholders b t = Returned None <->
        FindAllString SimplePlaceholderRegex b = FindAllString SimplePlaceholderRegex t)
  /\ (forall b t,
        List.length (FindAllString SimplePlaceholderRegex b) <>
        List.length (FindAllString SimplePlaceholderRegex t) ->
        validateSimplePlaceholders b t =
        Returned (Some (countMismatch
                          (List.length (FindAllString SimplePlaceholderRegex t))
                          (List.length (FindAllString SimplePlaceholderRegex b)))))
  /\ (forall b t i expected actual,
        List.length (FindAllString SimplePlaceholderRegex b) =
        List.length (FindAllString SimplePlaceholderRegex t) ->
        firstn i (FindAllString SimplePlaceholderRegex b) =
        firstn i (FindAllString SimplePlaceholderRegex t) ->
        nth_error (FindAllString SimplePlaceholderRegex b) i = Some expected ->
        nth_error (FindAllString SimplePlaceholderRegex t) i = Some actual ->
        expected <> actual ->
        validateSimplePlaceholders b t =
        Returned (Some (errorString
          ("The target string placeholder #" ++ itoa i ++ " is " ++ actual ++
           ", while it probably should be " ++ expected)))).
Proof.
  split; [reflexivity|]. split; [reflexivity|]. split; [reflexivity|].
  split; [|split].
  - intros b t. rewrite validateSimplePlaceholders_spec. cbv zeta.
    destruct (Nat.eqb_spec (List.length (FindAllString SimplePlaceholderRegex b))
                           (List.length (FindAllString SimplePlaceholderRegex t)))
      as [Hlen|Hlen].
    + rewrite <- (firstMismatch_None 0 _ _ Hlen).
      destruct (firstMismatch 0 _ _) as [[[i eb] et]|]; split; congruence.
    + split; [discriminate|]. intros H. now rewrite H in Hlen.
  - intros b t Hlen. rewrite validateSimplePlaceholders_spec. cbv zeta.
    destruct (Nat.eqb_spec (List.length (FindAllString SimplePlaceholderRegex b))
                           (List.length (FindAllString SimplePlaceholderRegex t)));
      [contradiction | reflexivity].
  - intros b t i expected actual Hlen Hpre Hb Ht Hne.
    rewrite validateSimplePlaceholders_spec. cbv zeta.
    rewrite Hlen, Nat.eqb_refl.
    now rewrite (firstMismatch_at _ _ 0 i Hpre Hb Ht Hne).
Qed.

Lemma named_placeholders_compared_by_index_witness :
  validateSimplePlaceholders "a %s b %d c %s" "x %s y %s z %d" =
  Returned (Some (errorString
    "The target string placeholder #1 is %s, while it probably should be %d")).
Proof.
  destruct named_placeholders_compared_by_index as (_ & _ & _ & _ & _ & H).
  apply (H "a %s b %d c %s" "x %s y %s z %d" 1 "%d" "%s");
    [reflexivity | reflexivity | reflexivity | reflexivity | discriminate].
Defined.

(** C3 as stated fails: the value ["50% off"] does not pass the
    potential-placeholder rule (its [%] is followed by a space). *)
Lemma potential_placeholder_50_percent_off_flagged :
  validatePotentialPlaceholder "50% off" <> None.
Proof. discriminate. Qed.

(** C3, amended.  The potential-placeholder rule fails on ["50% off"] and on
    ["% off"] (in both the [%] is followed by a space) and passes on
    ["50%off"]; in general it fails exactly on the values that contain a
    literal [%] immediately followed by a whitespace character (tab, line
    feed, form feed, carriage return or space). *)
Theorem potential_placeholder_flags_percent_whitespace :
  validatePotentialPlaceholder "50% off" =
    Some (errorString "Value '50% off' has a potential placeholder")
  /\ validatePotentialPlaceholder "% off" =
    Some (errorString "Value '% off' has a potential placeholder")
  /\ validatePotentialPlaceholder "50%off" = None
  /\ (forall s,
        validatePotentialPlaceholder s <> None <->
        exists pre c post,
          s = (pre ++ String "%" (String c post))%string /\
          In (nat_of_ascii c) [9; 10; 12; 13; 32]).
Proof.
  split; [reflexivity|]. split; [reflexivity|]. split; [reflexivity|].
  intros s. rewrite validatePotentialPlaceholder_fails_iff. unfold hasPercentSpace.
  assert (Hsp : forall c, isSpace c = true <-> In (nat_of_ascii c) [9; 10; 12; 13; 32]).
  { intros c. unfold isSpace. cbv zeta. rewrite !orb_true_iff, !Nat.eqb_eq.
    cbn [In]. intuition congruence. }
  split; intros (pre & c & post & H & Hc); exists pre, c, post; split;
    try exact H; now apply Hsp.
Qed.

(** ** Validating a document against itself *)

(** C2 as stated fails: a document whose only string is ["50% off"],
    validated against an identical copy, yields one finding. *)
Lemma identical_copy_with_findings :
  validateResources percentOffDoc percentOffDoc "values-de/strings.xml" false =
    Returned [ValidationError
      "discount in values-de/strings.xml: Value '50% off' has a potential placeholder"]
  /\ validateResources percentOffDoc percentOffDoc "values-de/strings.xml" true =
    Returned [ValidationError
      "discount in values-de/strings.xml: Value '50% off' has a potential placeholder"]
  /\ validateResources percentOffDoc percentOffDoc "values-de/strings.xml" true <>
    Returned [].
Proof. repeat split. discriminate. Qed.

Lemma find_same_name {A} (name : A -> string) (l : list A) (x : A) :
  In x l ->
  exists y, find (fun el => String.eqb (name el) (name x)) l = Some y /\
            In y l /\ name y = name x.
Proof.
  intros Hin.
  destruct (find (fun el => String.eqb (name el) (name x)) l) as [y|] eqn:E.
  - exists y. destruct (find_some _ _ E) as [Hy Hn].
    apply String.eqb_eq in Hn. now repeat split.
  - pose proof (find_none _ _ E x Hin) as H. cbn in H.
    now rewrite String.eqb_refl in H.
Qed.

(** C2, amended.  Let B be a document in which every string value, every
    string-array item and every plural item value passes the two
    single-value rules, and in which string entries of the same name have
    the same value and string-array entries of the same name have the same
    items.  Then validating an identical copy of B against B returns zero
    findings, for both values of [showMissing]. *)
Theorem identical_copy_no_findings (B : resourcesEl) (shortPath : string)
    (showMissing : bool) :
  (forall e, In e (Strings B) -> passesSimpleRules (stringEl_Value e)) ->
  (forall a item, In a (StringArrays B) -> In item (stringArrayEl_Items a) ->
                  passesSimpleRules item) ->
  (forall p item, In p (Plurals B) -> In item (pluralEl_Items p) ->
                  passesSimpleRules (pluralItemEl_Value item)) ->
  (forall e1 e2, In e1 (Strings B) -> In e2 (Strings B) ->
                 stringEl_Name e1 = stringEl_Name e2 ->
                 stringEl_Value e1 = stringEl_Value e2) ->
  (forall a1 a2, In a1 (StringArrays B) -> In a2 (StringArrays B) ->
                 stringArrayEl_Name a1 = stringArrayEl_Name a2 ->
                 stringArrayEl_Items a1 = stringArrayEl_Items a2) ->
  validateResources B B shortPath showMissing = Returned [].
Proof.
  intros Hs Ha Hp Hsame HsameA. unfold validateResources.
  rewrite forRange_unchanged; cbn [bind].
  2:{ intros ve st Hin. unfold reversePresenceBody.
      assert (E : existsb (fun baseElem =>
                    String.eqb (stringEl_Name ve) (stringEl_Name baseElem))
                    (Strings B) = true).
      { apply existsb_exists. exists ve. split; [exact Hin | apply String.eqb_refl]. }
      now rewrite E. }
  rewrite forRange_unchanged; cbn [bind].
  2:{ intros e st Hin. unfold stringBody, findStringElement.
      destruct (find_same_name stringEl_Name _ _ Hin) as (ve & -> & Hve & Hname).
      rewrite (Hsame ve e Hve Hin Hname), runComparisons_refl. cbn [bind].
      rewrite runSimples_spec, simpleFindings_passes, app_nil_r; [reflexivity|].
      rewrite <- (Hsame ve e Hve Hin Hname). now apply Hs. }
  rewrite forRange_unchanged; cbn [bind].
  2:{ intros a st Hin. unfold stringArrayBody, findStringArrayElement.
      destruct (find_same_name stringArrayEl_Name _ _ Hin) as (va & -> & Hva & Hname).
      pose proof (HsameA va a Hva Hin Hname) as Hitems.
      rewrite Hitems, Nat.eqb_refl. cbn [negb].
      apply forRange_unchanged. intros i st0 Hi.
      apply in_seq in Hi. unfold itemBody, index. rewrite Hitems.
      destruct (nth_error (stringArrayEl_Items a) i) as [item|] eqn:E.
      - cbn [bind]. rewrite runComparisons_refl. cbn [bind].
        rewrite runSimples_spec, simpleFindings_passes, app_nil_r; [reflexivity|].
        apply (Ha a item Hin). eapply nth_error_In; eassumption.
      - apply nth_error_None in E. lia. }
  rewrite forRange_unchanged; cbn [bind]; [reflexivity|].
  intros p st Hin. rewrite pluralBody_spec. unfold pluralEntryFindings.
  assert (E : forall items, incl items (pluralEl_Items p) ->
                flat_map (fun pluralValue =>
                  simpleFindings simpleValidationFuncs (pluralEl_Name p) shortPath
                    (pluralItemEl_Value pluralValue)) items = []).
  { induction items as [|it items IH]; intros Hincl; cbn [flat_map]; [reflexivity|].
    rewrite simpleFindings_passes, IH; [reflexivity | |].
    - intros x Hx. apply Hincl. now right.
    - apply (Hp p it Hin). apply Hincl. now left. }
  rewrite E, app_nil_r; [reflexivity | apply incl_refl].
Qed.

Lemma identical_copy_no_findings_witness :
  validateResources cleanDoc cleanDoc "values-de/strings.xml" true = Returned [].
Proof.
  apply (identical_copy_no_findings cleanDoc "values-de/strings.xml" true);
    cbn [cleanDoc Strings Plurals StringArrays].
  - intros e H. in_cases; split; reflexivity.
  - intros a item H H'. in_cases. cbn in H'. in_cases; split; reflexivity.
  - intros p item H H'. in_cases. cbn in H'. in_cases; split; reflexivity.
  - intros e1 e2 H1 H2 Hn. in_cases; try reflexivity; discriminate.
  - intros a1 a2 H1 H2 Hn. in_cases; reflexivity.
Defined.

(** ** Missing resources *)

Lemma countMissing_none l :
  Forall (fun e => isMissing e = false) l -> countMissing l = 0.
Proof.
  unfold countMissing. induction 1 as [|e l He _ IH]; cbn [filter]; [reflexivity|].
  now rewrite He.
Qed.

Lemma simpleFindings_not_missing fns name sp value :
  Forall (fun e => isMissing e = false) (simpleFindings fns name sp value).
Proof.
  unfold simpleFindings. apply Forall_flat_map, Forall_forall. intros fn _.
  destruct (fn value); repeat constructor.
Qed.

Lemma reverseFindings_not_missing b sp vs :
  Forall (fun e => isMissing e = false) (reverseFindings b sp vs).
Proof.
  unfold reverseFindings. apply Forall_flat_map, Forall_forall. intros ve _.
  destruct (existsb _ _); repeat constructor.
Qed.

Lemma pluralFindings_not_missing sp ps :
  Forall (fun e => isMissing e = false) (pluralFindings sp ps).
Proof.
  unfold pluralFindings, pluralEntryFindings.
  apply Forall_flat_map, Forall_forall. intros pe _.
  apply Forall_flat_map, Forall_forall. intros it _.
  apply simpleFindings_not_missing.
Qed.

Lemma forRange_invariant {A S} (P : S -> Prop) (body : A -> S -> result S) l :
  (forall x st st', body x st = Returned st' -> P st -> P st') ->
  forall st st', forRange l body st = Returned st' -> P st -> P st'.
Proof.
  intros Hb. induction l as [|x l IH]; intros st st' H HP; cbn [forRange] in H.
  - now injection H as <-.
  - destruct (body x st) as [st1|] eqn:E; cbn [bind] in H; [|discriminate].
    eapply IH; [exact H|]. eapply Hb; eassumption.
Qed.

Lemma runComparisons_not_missing fns name sp bv vv acc r :
  runComparisons fns name sp bv vv acc = Returned r ->
  countMissing acc = 0 -> countMissing r = 0.
Proof.
  unfold runComparisons. apply (forRange_invariant (fun st => countMissing st = 0)).
  intros fn st st' H Hst. destruct (fn bv vv) as [[e|]|]; cbn [bind] in H;
    try discriminate; injection H as <-; [|exact Hst].
  rewrite countMissing_app, Hst. reflexivity.
Qed.

Lemma runSimples_not_missing fns name sp value acc r :
  runSimples fns name sp value acc = Returned r ->
  countMissing acc = 0 -> countMissing r = 0.
Proof.
  rewrite runSimples_spec. intros H Hacc. injection H as <-.
  rewrite countMissing_app, Hacc.
  apply countMissing_none, simpleFindings_not_missing.
Qed.

Lemma itemBody_loop_not_missing sp a va l acc r :
  forRange l (itemBody sp a va) acc = Returned r ->
  countMissing acc = 0 -> countMissing r = 0.
Proof.
  apply (forRange_invariant (fun st => countMissing st = 0)).
  intros i st st' H Hst. unfold itemBody in H.
  destruct (index (stringArrayEl_Items a) i); cbn [bind] in H; [|discriminate].
  destruct (index (stringArrayEl_Items va) i); cbn [bind] in H; [|discriminate].
  destruct (runComparisons _ _ _ _ _ st) as [r1|] eqn:E1; cbn [bind] in H;
    [|discriminate].
  eapply runSimples_not_missing; [exact H|].
  eapply runComparisons_not_missing; eassumption.
Qed.

(** What one base string element contributes to the missing count. *)
Lemma stringBody_countMissing v sp sm e r :
  stringBody v sp sm e [] = Returned r ->
  countMissing r = if stringAbsent v e && sm then 1 else 0.
Proof.
  unfold stringBody, stringAbsent.
  destruct (findStringElement v (stringEl_Name e)) as [ve|]; cbn [andb].
  - destruct (runComparisons _ _ _ _ _ []) as [r1|] eqn:E1; cbn [bind]; [|discriminate].
    intros H. eapply runSimples_not_missing; [exact H|].
    eapply runComparisons_not_missing; [exact E1 | reflexivity].
  - destruct sm; intros H; injection H as <-; reflexivity.
Qed.

Lemma stringArrayBody_countMissing v sp sm a r :
  stringArrayBody v sp sm a [] = Returned r ->
  countMissing r = if stringArrayAbsent v a && sm then 1 else 0.
Proof.
  unfold stringArrayBody, stringArrayAbsent.
  destruct (findStringArrayElement v (stringArrayEl_Name a)) as [va|]; cbn [andb].
  - destruct (negb _).
    + intros H; injection H as <-; reflexivity.
    + intros H. eapply itemBody_loop_not_missing; [exact H | reflexivity].
  - destruct sm; intros H; injection H as <-; reflexivity.
Qed.

Lemma collect_countMissing {A} (f : A -> result (list error)) (absent : A -> bool)
    (sm : bool) l :
  (forall x r, f x = Returned r -> countMissing r = if absent x && sm then 1 else 0) ->
  forall rs, collect f l = Returned rs ->
  countMissing rs = if sm then List.length (filter absent l) else 0.
Proof.
  intros Hf. induction l as [|x l IH]; intros rs H; cbn [collect] in H.
  - injection H as <-. now destruct sm.
  - destruct (f x) as [r|] eqn:E; cbn [bind] in H; [|discriminate].
    destruct (collect f l) as [rs'|]; cbn [bind] in H; [|discriminate].
    injection H as <-. rewrite countMissing_app, (Hf x r E), (IH rs' eq_refl).
    cbn [filter]. destruct (absent x), sm; reflexivity.
Qed.

Lemma collect_incl {A} (f : A -> result (list error)) l rs x :
  collect f l = Returned rs -> In x l ->
  exists r, f x = Returned r /\ incl r rs.
Proof.
  revert rs; induction l as [|y l IH]; intros rs H Hin; [destruct Hin|].
  cbn [collect] in H.
  destruct (f y) as [r|] eqn:E; cbn [bind] in H; [|discriminate].
  destruct (collect f l) as [rs'|]; cbn [bind] in H; [|discriminate].
  injection H as <-. destruct Hin as [->|Hin].
  - exists r. split; [exact E | apply incl_appl, incl_refl].
  - destruct (IH rs' eq_refl Hin) as (r' & Hr' & Hincl).
    exists r'. split; [exact Hr' | apply incl_appr, Hincl].
Qed.

(** C4 as stated fails: the base plurals entry ["items"] is absent from the
    (empty) translated document and [showMissing] is true, yet no
    [ResourceMissingError] is emitted: the number of missing findings (0)
    is not the number of absent base entries (1). *)
Lemma absent_plural_not_reported :
  validateResources pluralOnlyBase emptyDoc "values-de/strings.xml" true = Returned []
  /\ absentBaseEntries pluralOnlyBase emptyDoc = 1
  /\ countMissing [] <> absentBaseEntries pluralOnlyBase emptyDoc.
Proof. repeat split. discriminate. Qed.

(** C4, amended.  Whenever validation of a translated document returns: for
    every base string entry and every base string-array entry that is absent
    from the translated document, its [ResourceMissingError] finding is among
    the findings if and only if [showMissing] is true; and the number of
    [ResourceMissingError] findings is the number of absent base string and
    string-array entries when [showMissing] is true, and zero otherwise.
    (Absent base plurals entries are not counted.) *)
Theorem missing_reported_iff_showMissing (b v : resourcesEl) (shortPath : string)
    (showMissing : bool) (errs : list error) :
  validateResources b v shortPath showMissing = Returned errs ->
  countMissing errs =
    (if showMissing then absentStrings b v + absentStringArrays b v else 0)
  /\ (forall e, In e (Strings b) ->
        findStringElement v (stringEl_Name e) = None ->
        (In (missingError (stringEl_Name e) shortPath) errs <-> showMissing = true))
  /\ (forall a, In a (StringArrays b) ->
        findStringArrayElement v (stringArrayEl_Name a) = None ->
        (In (missingError (stringArrayEl_Name a) shortPath) errs <-> showMissing = true)).
Proof.
  rewrite validateResources_phases.
  destruct (collect _ (Strings b)) as [st|] eqn:Est; cbn [bind]; [|discriminate].
  destruct (collect _ (StringArrays b)) as [sa|] eqn:Esa; cbn [bind]; [|discriminate].
  intros H; injection H as <-.
  assert (Hcount :
    countMissing (reverseFindings b shortPath (Strings v) ++ st ++ sa ++
                  pluralFindings shortPath (Plurals v)) =
    if showMissing then absentStrings b v + absentStringArrays b v else 0).
  { rewrite !countMissing_app.
    rewrite (countMissing_none (reverseFindings_not_missing _ _ _)).
    rewrite (countMissing_none (pluralFindings_not_missing _ _)).
    rewrite (collect_countMissing _ (stringAbsent v) showMissing _
               (fun x r => @stringBody_countMissing v shortPath showMissing x r) Est).
    rewrite (collect_countMissing _ (stringArrayAbsent v) showMissing _
               (fun x r => @stringArrayBody_countMissing v shortPath showMissing x r) Esa).
    unfold absentStrings, absentStringArrays. destruct showMissing; lia. }
  split; [exact Hcount|].
  split.
  - intros e Hin Habs. split.
    + intros Hmem. destruct showMissing; [reflexivity|].
      pose proof (countMissing_pos _ _ Hmem eq_refl). lia.
    + intros ->. destruct (collect_incl _ _ e Est Hin) as (r & Hr & Hincl).
      unfold stringBody in Hr. rewrite Habs in Hr. injection Hr as <-.
      apply in_or_app; right. apply in_or_app; left. apply Hincl. now left.
  - intros a Hin Habs. split.
    + intros Hmem. destruct showMissing; [reflexivity|].
      pose proof (countMissing_pos _ _ Hmem eq_refl). lia.
    + intros ->. destruct (collect_incl _ _ a Esa Hin) as (r & Hr & Hincl).
      unfold stringArrayBody in Hr. rewrite Habs in Hr. injection Hr as <-.
      apply in_or_app; right. apply in_or_app; right. apply in_or_app; left.
      apply Hincl. now left.
Qed.

Lemma missing_reported_iff_showMissing_witness :
  countMissing [ResourceMissingError "[missing] element named subtitle in values-de/strings.xml";
                ResourceMissingError "[missing] element named sizes in values-de/strings.xml"]
  = 2.
Proof.
  exact (proj1 (missing_reported_iff_showMissing shopBase shopGerman
                  "values-de/strings.xml" true eq_refl)).
Defined.

(** ** Plurals *)

Lemma pluralFindings_app sp l1 l2 :
  pluralFindings sp (l1 ++ l2) = pluralFindings sp l1 ++ pluralFindings sp l2.
Proof. unfold pluralFindings. apply flat_map_app. Qed.

Lemma pluralEntryFindings_passes sp pe :
  (forall item, In item (pluralEl_Items pe) ->
                passesSimpleRules (pluralItemEl_Value item)) ->
  pluralEntryFindings sp pe = [].
Proof.
  unfold pluralEntryFindings.
  induction (pluralEl_Items pe) as [|it its IH]; intros H; cbn [flat_map]; [reflexivity|].
  rewrite simpleFindings_passes by (apply H; now left).
  apply IH. intros x Hx. apply H. now right.
Qed.

(** The plurals of the translated document only add their own single-value
    findings, after everything else. *)
Lemma validateResources_plurals b s p sa sp sm :
  validateResources b {| Strings := s; Plurals := p; StringArrays := sa |} sp sm =
  (errs <- validateResources b {| Strings := s; Plurals := []; StringArrays := sa |} sp sm ;;
   Returned (errs ++ pluralFindings sp p)).
Proof.
  rewrite !validateResources_phases. cbn [Strings Plurals StringArrays].
  change (fun e => stringBody {| Strings := s; Plurals := p; StringArrays := sa |} sp sm e [])
    with (fun e => stringBody {| Strings := s; Plurals := []; StringArrays := sa |} sp sm e []).
  destruct (collect _ (Strings b)) as [st|]; cbn [bind]; [|reflexivity].
  change (fun e => stringArrayBody {| Strings := s; Plurals := p; StringArrays := sa |} sp sm e [])
    with (fun e => stringArrayBody {| Strings := s; Plurals := []; StringArrays := sa |} sp sm e []).
  destruct (collect _ (StringArrays b)) as [ar|]; cbn [bind]; [|reflexivity].
  cbn [pluralFindings flat_map]. now rewrite app_nil_r, <- !app_assoc.
Qed.

(** C9.  Plurals entries are never validated against the base document.
    The outcome of [validateResources] does not depend on the base
    document's plurals at all; in particular a base made of plurals entries
    only, validated against an empty translated document, yields no finding,
    whatever [showMissing] is.  The plurals of the translated document
    contribute exactly the findings of the two single-value rules on their own
    item values ([pluralFindings]), appended after all other findings. *)
Theorem plurals_not_validated_against_base :
  (forall s p p' sa v shortPath showMissing,
     validateResources {| Strings := s; Plurals := p; StringArrays := sa |} v
       shortPath showMissing =
     validateResources {| Strings := s; Plurals := p'; StringArrays := sa |} v
       shortPath showMissing)
  /\ (forall p shortPath showMissing,
        validateResources {| Strings := []; Plurals := p; StringArrays := [] |} emptyDoc
          shortPath showMissing = Returned [])
  /\ (forall b s p sa shortPath showMissing,
        validateResources b {| Strings := s; Plurals := p; StringArrays := sa |}
          shortPath showMissing =
        (errs <- validateResources b {| Strings := s; Plurals := []; StringArrays := sa |}
                   shortPath showMissing ;;
         Returned (errs ++
           flat_map (fun pluralsElem =>
             flat_map (fun pluralValue =>
               simpleFindings [validatePotentialPlaceholder; validateNewlineCharacters]
                 (pluralEl_Name pluralsElem) shortPath (pluralItemEl_Value pluralValue))
               (pluralEl_Items pluralsElem)) p))).
Proof.
  split; [reflexivity|]. split; [reflexivity|].
  intros. apply validateResources_plurals.
Qed.

(** ** Translated entries without a base counterpart *)

(** C10 as stated fails: the translated plurals entry ["apples"] has no
    counterpart in the (empty) base document, and yet a finding is produced
    for it. *)
Lemma orphan_plural_flagged :
  validateResources emptyDoc orphanPluralDoc "values-de/strings.xml" false =
    Returned [ValidationError
      "apples in values-de/strings.xml: Value '% apple' has a potential placeholder"]
  /\ validateResources emptyDoc orphanPluralDoc "values-de/strings.xml" false <>
     Returned [].
Proof. split; [reflexivity | discriminate]. Qed.

Lemma find_app_skip {A} (f : A -> bool) l1 x l2 :
  f x = false -> find f (l1 ++ x :: l2) = find f (l1 ++ l2).
Proof.
  intros Hx. induction l1 as [|y l1 IH]; simpl.
  - now rewrite Hx.
  - destruct (f y); [reflexivity | exact IH].
Qed.

(** C10, amended.  The reverse-presence check covers only string entries.
    A translated string-array entry whose name has no counterpart among the
    base string arrays produces no finding of any kind: validation behaves
    exactly as if the entry were not there.  A translated plurals entry is
    never looked up in the base document: whenever validation of the
    document returns, the entry contributes exactly the findings of the
    single-value rules on its own item values, the other findings being
    those returned for the document without the entry; and when all its item
    values pass those rules, validation behaves exactly as if the entry were
    not there. *)
Theorem orphan_arrays_and_plurals (b : resourcesEl) (shortPath : string)
    (showMissing : bool) :
  (forall s p l1 a l2,
     (forall ba, In ba (StringArrays b) -> stringArrayEl_Name ba <> stringArrayEl_Name a) ->
     validateResources b {| Strings := s; Plurals := p; StringArrays := l1 ++ a :: l2 |}
       shortPath showMissing =
     validateResources b {| Strings := s; Plurals := p; StringArrays := l1 ++ l2 |}
       shortPath showMissing)
  /\ (forall s l1 pe l2 sa errs,
        validateResources b {| Strings := s; Plurals := l1 ++ pe :: l2; StringArrays := sa |}
          shortPath showMissing = Returned errs ->
        exists pre post,
          errs = pre ++
                 flat_map (fun pluralValue =>
                             simpleFindings
                               [validatePotentialPlaceholder; validateNewlineCharacters]
                               (pluralEl_Name pe) shortPath (pluralItemEl_Value pluralValue))
                          (pluralEl_Items pe) ++
                 post /\
          validateResources b {| Strings := s; Plurals := l1 ++ l2; StringArrays := sa |}
            shortPath showMissing = Returned (pre ++ post))
  /\ (forall s l1 pe l2 sa,
        (forall item, In item (pluralEl_Items pe) ->
                      passesSimpleRules (pluralItemEl_Value item)) ->
        validateResources b {| Strings := s; Plurals := l1 ++ pe :: l2; StringArrays := sa |}
          shortPath showMissing =
        validateResources b {| Strings := s; Plurals := l1 ++ l2; StringArrays := sa |}
          shortPath showMissing).
Proof.
  split; [|split].
  - intros s p l1 a l2 Hno. rewrite !validateResources_phases.
    cbn [Strings Plurals StringArrays].
    change (fun e => stringBody
              {| Strings := s; Plurals := p; StringArrays := l1 ++ a :: l2 |}
              shortPath showMissing e [])
      with (fun e => stringBody
              {| Strings := s; Plurals := p; StringArrays := l1 ++ l2 |}
              shortPath showMissing e []).
    destruct (collect _ (Strings b)) as [st|]; cbn [bind]; [|reflexivity].
    rewrite (collect_ext
               (fun e => stringArrayBody
                  {| Strings := s; Plurals := p; StringArrays := l1 ++ a :: l2 |}
                  shortPath showMissing e [])
               (fun e => stringArrayBody
                  {| Strings := s; Plurals := p; StringArrays := l1 ++ l2 |}
                  shortPath showMissing e [])); [reflexivity|].
    intros ba Hba. unfold stringArrayBody, findStringArrayElement.
    cbn [StringArrays]. rewrite find_app_skip; [reflexivity|].
    apply String.eqb_neq. intros E. now apply (Hno ba Hba).
  - intros s l1 pe l2 sa errs.
    rewrite (validateResources_plurals b s (l1 ++ pe :: l2)),
            (validateResources_plurals b s (l1 ++ l2)).
    destruct (validateResources b _ shortPath showMissing) as [r|]; cbn [bind];
      [|discriminate].
    intros H; injection H as <-.
    exists (r ++ pluralFindings shortPath l1), (pluralFindings shortPath l2).
    rewrite !pluralFindings_app. cbn [pluralFindings flat_map].
    split; [|now rewrite app_assoc].
    now rewrite <- !app_assoc.
  - intros s l1 pe l2 sa Hpass.
    rewrite (validateResources_plurals b s (l1 ++ pe :: l2)),
            (validateResources_plurals b s (l1 ++ l2)).
    rewrite !pluralFindings_app. cbn [pluralFindings flat_map].
    now rewrite (pluralEntryFindings_passes shortPath pe Hpass).
Qed.

Lemma orphan_arrays_and_plurals_witness :
  validateResources sizesOnlyBase
    {| Strings := []; Plurals := [];
       StringArrays := [ {| stringArrayEl_Name := "sizes";
                            stringArrayEl_Items := ["klein"; "gross"] |} ] ++
                       {| stringArrayEl_Name := "colours";
                          stringArrayEl_Items := ["rot % "] |} :: [] |}
    "values-de/strings.xml" true =
  validateResources sizesOnlyBase
    {| Strings := []; Plurals := [];
       StringArrays := [ {| stringArrayEl_Name := "sizes";
                            stringArrayEl_Items := ["klein"; "gross"] |} ] ++ [] |}
    "values-de/strings.xml" true
  /\ (exists pre post,
        [ResourceMissingError "[missing] element named sizes in values-de/strings.xml";
         ValidationError
           "apples in values-de/strings.xml: Value '% apple' has a potential placeholder"] =
        pre ++
        flat_map (fun pluralValue =>
                    simpleFindings [validatePotentialPlaceholder; validateNewlineCharacters]
                      "apples" "values-de/strings.xml" (pluralItemEl_Value pluralValue))
                 [ {| Quantity := "one"; pluralItemEl_Value := "% apple" |} ] ++
        post /\
        validateResources sizesOnlyBase
          {| Strings := []; Plurals := [] ++ []; StringArrays := [] |}
          "values-de/strings.xml" true = Returned (pre ++ post))
  /\ validateResources sizesOnlyBase
       {| Strings := [];
          Plurals := [] ++ {| pluralEl_Name := "apples";
                              pluralEl_Items := [ {| Quantity := "one";
                                                     pluralItemEl_Value := "%d Apfel" |} ] |} :: [];
          StringArrays := [] |}
       "values-de/strings.xml" true =
     validateResources sizesOnlyBase
       {| Strings := []; Plurals := [] ++ []; StringArrays := [] |}
       "values-de/strings.xml" true.
Proof.
  destruct (orphan_arrays_and_plurals sizesOnlyBase "values-de/strings.xml" true)
    as (Harr & Hcontrib & Hpl).
  split; [|split].
  - apply Harr. intros ba Hba. cbn in Hba. in_cases. discriminate.
  - exact (Hcontrib [] []
             {| pluralEl_Name := "apples";
                pluralEl_Items := [ {| Quantity := "one"; pluralItemEl_Value := "% apple" |} ] |}
             [] [] _ eq_refl).
  - apply Hpl. intros item Hitem. cbn in Hitem. in_cases. split; reflexivity.
Defined.

(** ** A string-array entry with the wrong number of items, and an orphan
       string entry: their contribution to a run *)

Lemma reverseFindings_app b sp l1 l2 :
  reverseFindings b sp (l1 ++ l2) = reverseFindings b sp l1 ++ reverseFindings b sp l2.
Proof. unfold reverseFindings. apply flat_map_app. Qed.

(** A translated string entry [e] whose name is not a base string name adds
    exactly its one "does not have a base value" finding to a run, and
    changes nothing else; a run that panics without it panics with it. *)
Lemma orphan_string_contribution b l1 e l2 p sa sp sm :
  (forall be, In be (Strings b) -> stringEl_Name be <> stringEl_Name e) ->
  match validateResources b {| Strings := l1 ++ l2; Plurals := p; StringArrays := sa |}
          sp sm with
  | Returned errs' =>
      exists post,
        errs' = reverseFindings b sp l1 ++ post /\
        validateResources b {| Strings := l1 ++ e :: l2; Plurals := p; StringArrays := sa |}
          sp sm =
        Returned (reverseFindings b sp l1 ++
                  noBaseValueError (stringEl_Name e) sp :: post)
  | Panicked =>
      validateResources b {| Strings := l1 ++ e :: l2; Plurals := p; StringArrays := sa |}
        sp sm = Panicked
  end.
Proof.
  intros Hno. rewrite !validateResources_phases. cbn [Strings Plurals StringArrays].
  rewrite (collect_ext
             (fun be => stringBody
                {| Strings := l1 ++ e :: l2; Plurals := p; StringArrays := sa |} sp sm be [])
             (fun be => stringBody
                {| Strings := l1 ++ l2; Plurals := p; StringArrays := sa |} sp sm be [])).
  2:{ intros be Hbe. unfold stringBody, findStringElement. cbn [Strings].
      rewrite find_app_skip; [reflexivity|].
      apply String.eqb_neq. intros E. now apply (Hno be Hbe). }
  destruct (collect _ (Strings b)) as [st|]; cbn [bind]; [|reflexivity].
  change (fun a => stringArrayBody
            {| Strings := l1 ++ e :: l2; Plurals := p; StringArrays := sa |} sp sm a [])
    with (fun a => stringArrayBody
            {| Strings := l1 ++ l2; Plurals := p; StringArrays := sa |} sp sm a []).
  destruct (collect _ (StringArrays b)) as [ar|]; cbn [bind]; [|reflexivity].
  exists (reverseFindings b sp l2 ++ st ++ ar ++ pluralFindings sp p).
  rewrite !reverseFindings_app, <- !app_assoc. split; [reflexivity|].
  do 2 f_equal. unfold reverseFindings at 1. cbn [flat_map].
  assert (E : existsb (fun baseElem =>
                String.eqb (stringEl_Name e) (stringEl_Name baseElem)) (Strings b) = false).
  { apply not_true_is_false. intros H. apply existsb_exists in H.
    destruct H as (be & Hbe & Heq). apply String.eqb_eq in Heq.
    now apply (Hno be Hbe). }
  rewrite E. reflexivity.
Qed.

(** A base string-array entry [a] whose translated counterpart [va] has a
    different number of items adds exactly its one count finding to a run,
    and changes nothing else; a run that panics without it panics with it. *)
Lemma array_count_mismatch_contribution s p l1 a l2 v va sp sm :
  findStringArrayElement v (stringArrayEl_Name a) = Some va ->
  List.length (stringArrayEl_Items a) <> List.length (stringArrayEl_Items va) ->
  match validateResources {| Strings := s; Plurals := p; StringArrays := l1 ++ l2 |} v
          sp sm with
  | Returned errs' =>
      exists pre post,
        errs' = pre ++ post /\
        validateResources {| Strings := s; Plurals := p; StringArrays := l1 ++ a :: l2 |} v
          sp sm =
        Returned (pre ++
                  arrayCountError (stringArrayEl_Name va) sp
                    (List.length (stringArrayEl_Items va))
                    (List.length (stringArrayEl_Items a)) :: post)
  | Panicked =>
      validateResources {| Strings := s; Plurals := p; StringArrays := l1 ++ a :: l2 |} v
        sp sm = Panicked
  end.
Proof.
  intros Hfind Hlen.
  assert (Ha : stringArrayBody v sp sm a [] =
               Returned [arrayCountError (stringArrayEl_Name va) sp
                           (List.length (stringArrayEl_Items va))
                           (List.length (stringArrayEl_Items a))]).
  { unfold stringArrayBody. rewrite Hfind.
    destruct (Nat.eqb_spec (List.length (stringArrayEl_Items a))
                           (List.length (stringArrayEl_Items va))) as [E|_];
      [contradiction | reflexivity]. }
  rewrite !validateResources_phases.
  cbn [Strings Plurals StringArrays].
  change (reverseFindings {| Strings := s; Plurals := p; StringArrays := l1 ++ a :: l2 |})
    with (reverseFindings {| Strings := s; Plurals := p; StringArrays := l1 ++ l2 |}).
  destruct (collect _ s) as [st|]; cbn [bind]; [|reflexivity].
  rewrite !collect_app. cbn [collect]. rewrite Ha.
  destruct (collect _ l1) as [r1|]; cbn [bind]; [|reflexivity].
  destruct (collect _ l2) as [r2|]; cbn [bind app]; [|reflexivity].
  eexists (reverseFindings _ sp (Strings v) ++ st ++ r1),
          (r2 ++ pluralFindings sp (Plurals v)).
  rewrite <- !app_assoc. split; reflexivity.
Qed.

Lemma collect_panics {A} (f : A -> result (list error)) l x :
  In x l -> f x = Panicked -> collect f l = Panicked.
Proof.
  induction l as [|y l IH]; intros Hin Hx; [destruct Hin|].
  cbn [collect]. destruct Hin as [->|Hin].
  - now rewrite Hx.
  - destruct (f y); cbn [bind]; [|reflexivity]. now rewrite (IH Hin Hx).
Qed.

(** The reach of the panic: one base string whose translated counterpart
    makes the positional-placeholder rule panic aborts the whole run. *)
Lemma validateResources_panics b v sp sm be ve :
  In be (Strings b) ->
  findStringElement v (stringEl_Name be) = Some ve ->
  validatePositionalPlaceholders (stringEl_Value be) (stringEl_Value ve) = Panicked ->
  validateResources b v sp sm = Panicked.
Proof.
  intros Hin Hfind Hpanic. rewrite validateResources_phases.
  rewrite (collect_panics _ _ be Hin); [reflexivity|].
  unfold stringBody. rewrite Hfind.
  unfold runComparisons, comparisonValidationFuncs. cbn [forRange].
  rewrite validateSimplePlaceholders_spec. cbv zeta. cbn [bind].
  destruct (if Nat.eqb _ _ then _ else _); now rewrite Hpanic.
Qed.

(** The order-independent case of the positional-placeholder rule. *)
Example positional_order_independent :
  validatePositionalPlaceholders "%1$s %2$d" "%2$d %1$s" = Returned None.
Proof. reflexivity. Qed.

(** C6 (the code departs from the claim).  The translated document holds the
    string entry ["extra_key"], which has no base entry.  Its other entry,
    ["welcome"], has the positional token [%2$s] where the base has [%1$s]:
    the positional-placeholder rule panics on that pair, the run of
    [validateResources] is aborted and no finding about ["extra_key"] is
    returned.  Without the ["welcome"] pair the finding is there; on every
    run that returns, the entry contributes exactly its one finding
    ([orphan_string_contribution]). *)
Theorem orphan_string_lost_on_panic :
  validateResources welcomeBase welcomeWithExtra "values-de/strings.xml" false = Panicked
  /\ validateResources welcomeBase welcomeWithExtra "values-de/strings.xml" true = Panicked
  /\ validateResources emptyDoc
       {| Strings := [ {| stringEl_Name := "extra_key"; stringEl_Value := "Extra" |} ];
          Plurals := []; StringArrays := [] |}
       "values-de/strings.xml" true =
     Returned [ValidationError
       "extra_key in values-de/strings.xml does not have a base value."].
Proof. repeat split. Qed.

(** C7 (the code departs from the claim).  The base array ["sizes"] has
    three items and its translated counterpart two.  The string entry
    ["price"] has the positional token [%2$s] where the base has [%1$s]: the
    positional-placeholder rule panics on that pair before the string arrays
    are reached, and no count finding is returned.  Without the ["price"]
    pair the count finding is there, alone; on every run that returns, the
    entry contributes exactly its one count finding
    ([array_count_mismatch_contribution]). *)
Theorem array_count_finding_lost_on_panic :
  validateResources priceBase priceShortArray "values-de/strings.xml" false = Panicked
  /\ validateResources priceBase priceShortArray "values-de/strings.xml" true = Panicked
  /\ validateResources
       {| Strings := []; Plurals := []; StringArrays := StringArrays priceBase |}
       {| Strings := []; Plurals := []; StringArrays := StringArrays priceShortArray |}
       "values-de/strings.xml" true =
     Returned [ValidationError
       "sizes array in values-de/strings.xml has 2 items, but it should have 3"].
Proof. repeat split. Qed.

(** ** [Validate] when the base document cannot be parsed *)

(** C8.  If parsing the base document fails with [err], [Validate] returns
    the one-element list [[err]], and the only file-system call it makes is
    the read of the base file: no glob (no enumeration) and no read of any
    translated file. *)
Theorem Validate_base_parse_failure
    (ReadFile : string -> error + string) (Unmarshal : string -> error + resourcesEl)
    (Glob : string -> error + list string) (Join : list string -> string)
    (Rel : string -> string -> error + string)
    (resDir baseLocale stringsFilename : string) (showMissing : bool) (err : error) :
  snd (parseResources ReadFile Unmarshal Join resDir baseLocale stringsFilename) =
    Returned (inl err) ->
  Validate ReadFile Unmarshal Glob Join Rel resDir baseLocale stringsFilename showMissing =
    ([EvReadFile (Join [resDir; valuesDir baseLocale; stringsFilename])], Returned [err]).
Proof.
  unfold Validate, parseResources, parseResourcesFile. cbn [snd ioBind].
  intros H. injection H as H. rewrite H. reflexivity.
Qed.

Lemma Validate_base_parse_failure_witness :
  Validate (fun _ => inl (ExternalError "open res/values/strings.xml: no such file or directory"))
           (fun _ => inr emptyDoc)
           (fun _ => inr ["res/values-de/strings.xml"])
           (String.concat "/")
           (fun _ p => inr p)
           "res" "" "strings.xml" true =
  ([EvReadFile "res/values/strings.xml"],
   Returned [ExternalError "open res/values/strings.xml: no such file or directory"]).
Proof.
  apply (@Validate_base_parse_failure
           (fun _ => inl (ExternalError "open res/values/strings.xml: no such file or directory"))
           (fun _ => inr emptyDoc)
           (fun _ => inr ["res/values-de/strings.xml"])
           (String.concat "/")
           (fun _ p => inr p)
           "res" "" "strings.xml" true
           (ExternalError "open res/values/strings.xml: no such file or directory")).
  reflexivity.
Defined.

(** * Further properties of the code *)

(** ** The rules *)

Lemma chars_app s1 s2 : chars (s1 ++ s2) = chars s1 ++ chars s2.
Proof. unfold chars. induction s1 as [|a s1 IH]; cbn; [reflexivity | now rewrite IH]. Qed.

Lemma hasNewline_chars s : hasNewline s <-> In newline (chars s).
Proof.
  unfold hasNewline. split.
  - intros (pre & post & ->). rewrite chars_app. apply in_or_app. right. now left.
  - induction s as [|a s IH]; cbn; [tauto|]. intros [->|H].
    + now exists EmptyString, s.
    + destruct (IH H) as (pre & post & ->). now exists (String a pre), post.
Qed.

Lemma escaped_no_newline s : ~ In newline (chars (ReplaceAllString NewLineRegex s "\n")).
Proof.
  unfold ReplaceAllString, chars. induction s as [|a s IH]; [intros []|].
  cbn [replaceAllFrom matchHere NewLineRegex]. unfold isChar.
  destruct (Ascii.eqb_spec a newline) as [->|Hne];
    cbn [option_map consFst fst String.length Nat.sub].
  - cbn. intros [H|[H|H]]; [discriminate | discriminate | now apply IH].
  - cbn. intros [H|H]; [now apply Hne | now apply IH].
Qed.

Lemma no_newline_wrap pre mid post :
  ~ In newline (chars pre) -> ~ In newline (chars mid) -> ~ In newline (chars post) ->
  ~ In newline (chars (pre ++ mid ++ post)).
Proof. intros H1 H2 H3. rewrite !chars_app, !in_app_iff. tauto. Qed.

(** X1.  The newline rule fails exactly on the values that contain a
    newline character. *)
Theorem newline_rule_flags_newlines (s : string) :
  validateNewlineCharacters s <> None <-> In newline (chars s).
Proof. rewrite validateNewlineCharacters_fails_iff. apply hasNewline_chars. Qed.

Lemma escaped_chars s :
  chars (ReplaceAllString NewLineRegex s "\n") =
  flat_map (fun a => if Ascii.eqb a newline then ["\"%char; "n"%char] else [a]) (chars s).
Proof.
  unfold ReplaceAllString, chars. induction s as [|a s IH]; [reflexivity|].
  cbn [replaceAllFrom matchHere NewLineRegex list_ascii_of_string flat_map].
  unfold isChar. destruct (Ascii.eqb a newline);
    cbn [option_map consFst fst String.length Nat.sub append list_ascii_of_string app];
    now rewrite IH.
Qed.

(** X2.  A single-value rule reports the value with every newline character
    replaced by the two characters backslash and n and every other character
    kept as it is, between the fixed words of its message; so the message
    never contains a raw newline, and a value without newline is reported
    unchanged. *)
Theorem single_value_messages_on_one_line (s : string) :
  chars (ReplaceAllString NewLineRegex s "\n") =
    flat_map (fun a => if Ascii.eqb a newline then ["\"%char; "n"%char] else [a]) (chars s)
  /\ (forall e, validatePotentialPlaceholder s = Some e ->
                Error e = ("Value '" ++ ReplaceAllString NewLineRegex s "\n" ++
                           "' has a potential placeholder")%string)
  /\ (forall e, validateNewlineCharacters s = Some e ->
                Error e = ("The following line must not have a newline character: '" ++
                           ReplaceAllString NewLineRegex s "\n" ++ "'")%string)
  /\ (forall e, validatePotentialPlaceholder s = Some e \/
                validateNewlineCharacters s = Some e ->
                ~ In newline (chars (Error e)))
  /\ (~ In newline (chars s) -> ReplaceAllString NewLineRegex s "\n" = s).
Proof.
  split; [apply escaped_chars|]. split; [|split; [|split]].
  - intros e H. unfold validatePotentialPlaceholder in H.
    destruct (Nat.ltb 0 _); [|discriminate]. now injection H as <-.
  - intros e H. unfold validateNewlineCharacters in H.
    destruct (Nat.ltb 0 _); [|discriminate]. now injection H as <-.
  - intros e [H|H].
    + unfold validatePotentialPlaceholder in H.
      destruct (Nat.ltb 0 _); [|discriminate]. injection H as <-.
      apply (no_newline_wrap "Value '" _ "' has a potential placeholder");
        [no_newline_literal | apply escaped_no_newline | no_newline_literal].
    + unfold validateNewlineCharacters in H.
      destruct (Nat.ltb 0 _); [|discriminate]. injection H as <-.
      apply (no_newline_wrap "The following line must not have a newline character: '" _ "'");
        [no_newline_literal | apply escaped_no_newline | no_newline_literal].
  - unfold ReplaceAllString, chars. induction s as [|a s IH]; [reflexivity|].
    intros Hno. cbn [replaceAllFrom matchHere NewLineRegex]. unfold isChar.
    destruct (Ascii.eqb_spec a newline) as [->|Hne].
    + exfalso. apply Hno. now left.
    + cbn [option_map]. rewrite IH; [reflexivity|].
      intros H. apply Hno. now right.
Qed.

Lemma single_value_messages_on_one_line_witness :
  Error (errorString
    ("The following line must not have a newline character: '" ++
     ReplaceAllString NewLineRegex ("50% off" ++ String newline "today") "\n" ++ "'")) =
  "The following line must not have a newline character: '50% off\ntoday'"
  /\ ReplaceAllString NewLineRegex "50% off" "\n" = "50% off".
Proof.
  destruct (single_value_messages_on_one_line ("50% off" ++ String newline "today"))
    as (_ & _ & Hmsg & _ & _).
  destruct (single_value_messages_on_one_line "50% off") as (_ & _ & _ & _ & Hid).
  split.
  - exact (Hmsg _ eq_refl).
  - apply Hid. cbn. intros H. repeat (destruct H as [H|H]; [discriminate|]). exact H.
Defined.

Lemma allFound_incl B T : allFound B T = true <-> incl B T.
Proof.
  unfold allFound, incl. rewrite forallb_forall. split; intros H m Hm.
  - specialize (H m Hm). apply existsb_exists in H. destruct H as (x & Hx & E).
    apply String.eqb_eq in E. now subst.
  - apply existsb_exists. exists m. split; [now apply H | apply String.eqb_refl].
Qed.

(** X3.  The positional-placeholder rule passes exactly when the two values
    have the same number of positional tokens and every base token occurs
    somewhere among the translated tokens. *)
Theorem positional_rule_passes_iff (b t : string) :
  validatePositionalPlaceholders b t = Returned None <->
  List.length (FindAllString PositionalPlaceholderRegex b) =
  List.length (FindAllString PositionalPlaceholderRegex t) /\
  incl (FindAllString PositionalPlaceholderRegex b)
       (FindAllString PositionalPlaceholderRegex t).
Proof.
  rewrite validatePositionalPlaceholders_spec. cbv zeta.
  rewrite <- allFound_incl.
  destruct (Nat.eqb_spec (List.length (FindAllString PositionalPlaceholderRegex b))
                         (List.length (FindAllString PositionalPlaceholderRegex t)))
    as [Hlen|Hlen].
  - destruct (allFound _ _); split; try tauto; try discriminate.
    intros [_ H]; discriminate.
  - split; [discriminate | tauto].
Qed.

(** X4.  The positional-placeholder rule is order independent: it passes
    whenever the translated tokens are a rearrangement of the base tokens. *)
Theorem positional_rule_order_independent (b t : string) :
  Permutation (FindAllString PositionalPlaceholderRegex b)
              (FindAllString PositionalPlaceholderRegex t) ->
  validatePositionalPlaceholders b t = Returned None.
Proof.
  intros HP. rewrite validatePositionalPlaceholders_spec. cbv zeta.
  rewrite (Permutation_length HP), Nat.eqb_refl.
  assert (E : allFound (FindAllString PositionalPlaceholderRegex b)
                       (FindAllString PositionalPlaceholderRegex t) = true).
  { apply allFound_incl. intros m Hm. eapply Permutation_in; eassumption. }
  now rewrite E.
Qed.

Lemma positional_rule_order_independent_witness :
  validatePositionalPlaceholders "%1$s, %2$d and %3$s" "%3$s: %1$s (%2$d)" = Returned None.
Proof.
  apply positional_rule_order_independent.
  change (Permutation ["%1$s"; "%2$d"; "%3$s"] ["%3$s"; "%1$s"; "%2$d"]).
  apply Permutation_sym. apply (Permutation_cons_app ["%1$s"; "%2$d"] [] "%3$s").
  rewrite app_nil_r. apply Permutation_refl.
Defined.

Lemma validateSimplePlaceholders_passes_iff b t :
  validateSimplePlaceholders b t = Returned None <->
  FindAllString SimplePlaceholderRegex b = FindAllString SimplePlaceholderRegex t.
Proof.
  rewrite validateSimplePlaceholders_spec. cbv zeta.
  destruct (Nat.eqb_spec (List.length (FindAllString SimplePlaceholderRegex b))
                         (List.length (FindAllString SimplePlaceholderRegex t)))
    as [Hlen|Hlen].
  - rewrite <- (firstMismatch_None 0 _ _ Hlen).
    destruct (firstMismatch 0 _ _) as [[[i eb] et]|]; split; congruence.
  - split; [discriminate|]. intros H. now rewrite H in Hlen.
Qed.

(** X5.  The named-placeholder rule never panics, and whether it passes
    does not depend on which of the two values is taken as the base. *)
Theorem named_rule_total_and_symmetric (b t : string) :
  (exists r, validateSimplePlaceholders b t = Returned r)
  /\ (validateSimplePlaceholders b t = Returned None <->
      validateSimplePlaceholders t b = Returned None).
Proof.
  split.
  - rewrite validateSimplePlaceholders_spec. eexists. reflexivity.
  - rewrite !validateSimplePlaceholders_passes_iff. split; congruence.
Qed.

(** X6.  Both pairwise rules pass when a value is compared with itself, so
    an untranslated copy of a base value is never flagged by them. *)
Theorem pairwise_rules_pass_on_equal_values (s : string) :
  validateSimplePlaceholders s s = Returned None
  /\ validatePositionalPlaceholders s s = Returned None.
Proof.
  split; [apply validateSimplePlaceholders_refl | apply validatePositionalPlaceholders_refl].
Qed.

(** ** Lookup *)

Lemma find_by_name {A} (name : A -> string) (l : list A) (n : string) :
  (find (fun el => String.eqb (name el) n) l = None <->
   forall e, In e l -> name e <> n)
  /\ (forall l1 e l2,
        l = l1 ++ e :: l2 -> name e = n ->
        (forall x, In x l1 -> name x <> n) ->
        find (fun el => String.eqb (name el) n) l = Some e).
Proof.
  split.
  - split.
    + intros H e He E. pose proof (find_none _ _ H e He) as Hf. cbn in Hf.
      rewrite E, String.eqb_refl in Hf. discriminate.
    + intros H. destruct (find _ l) as [y|] eqn:E; [|reflexivity].
      destruct (find_some _ _ E) as [Hy Hn]. apply String.eqb_eq in Hn.
      now elim (H y Hy).
  - intros l1 e l2 -> He Hl1. induction l1 as [|y l1 IH]; simpl.
    + now rewrite He, String.eqb_refl.
    + destruct (String.eqb_spec (name y) n) as [E|_].
      * now elim (Hl1 y (or_introl eq_refl)).
      * apply IH. intros x Hx. apply Hl1. now right.
Qed.

(** X7.  Lookup by name returns the first element of that name in document
    order, also when names are duplicated, and finds nothing exactly when no
    element has that name; this holds for strings and for string arrays. *)
Theorem lookup_returns_first_match (resources : resourcesEl) (name : string) :
  (findStringElement resources name = None <->
   forall e, In e (Strings resources) -> stringEl_Name e <> name)
  /\ (forall l1 e l2,
        Strings resources = l1 ++ e :: l2 -> stringEl_Name e = name ->
        (forall x, In x l1 -> stringEl_Name x <> name) ->
        findStringElement resources name = Some e)
  /\ (findStringArrayElement resources name = None <->
      forall a, In a (StringArrays resources) -> stringArrayEl_Name a <> name)
  /\ (forall l1 a l2,
        StringArrays resources = l1 ++ a :: l2 -> stringArrayEl_Name a = name ->
        (forall x, In x l1 -> stringArrayEl_Name x <> name) ->
        findStringArrayElement resources name = Some a).
Proof.
  unfold findStringElement, findStringArrayElement.
  destruct (find_by_name stringEl_Name (Strings resources) name) as [H1 H2].
  destruct (find_by_name stringArrayEl_Name (StringArrays resources) name) as [H3 H4].
  repeat split; try apply H1; try apply H3; try exact H2; try exact H4.
Qed.

Lemma lookup_returns_first_match_witness :
  findStringElement duplicateNamesDoc "x" =
  Some {| stringEl_Name := "x"; stringEl_Value := "first" |}.
Proof.
  refine (proj1 (proj2 (lookup_returns_first_match duplicateNamesDoc "x"))
            [ {| stringEl_Name := "a"; stringEl_Value := "1" |} ]
            {| stringEl_Name := "x"; stringEl_Value := "first" |}
            [ {| stringEl_Name := "x"; stringEl_Value := "second" |} ] eq_refl eq_refl _).
  intros x [<-|[]]. discriminate.
Defined.

(** ** [validateResources] *)

Lemma dropMissing_app l1 l2 : dropMissing (l1 ++ l2) = dropMissing l1 ++ dropMissing l2.
Proof. apply filter_app. Qed.

Lemma dropMissing_none l :
  Forall (fun e => isMissing e = false) l -> dropMissing l = l.
Proof.
  unfold dropMissing. induction 1 as [|e l He _ IH]; cbn [filter]; [reflexivity|].
  now rewrite He, IH.
Qed.

Lemma countMissing_zero_Forall l :
  countMissing l = 0 -> Forall (fun e => isMissing e = false) l.
Proof.
  unfold countMissing. induction l as [|e l IH]; cbn [filter]; [constructor|].
  destruct (isMissing e) eqn:E; cbn [List.length]; [discriminate|].
  intros H. constructor; [exact E | now apply IH].
Qed.

Lemma collect_dropMissing {A} (f g : A -> result (list error)) l :
  (forall x, f x = (r <- g x ;; Returned (dropMissing r))) ->
  collect f l = (rs <- collect g l ;; Returned (dropMissing rs)).
Proof.
  intros H. induction l as [|x l IH]; cbn [collect]; [reflexivity|].
  rewrite (H x), IH. destruct (g x) as [r|]; cbn [bind]; [|reflexivity].
  destruct (collect g l) as [rs|]; cbn [bind]; [|reflexivity].
  now rewrite dropMissing_app.
Qed.

(** X8.  [showMissing] only adds the missing-resource findings: the result
    without it is the result with it, minus the [ResourceMissingError]s, in
    the same order; a run panics with the flag exactly when it panics
    without. *)
Theorem showMissing_only_adds_missing (b v : resourcesEl) (shortPath : string) :
  validateResources b v shortPath false =
  (errs <- validateResources b v shortPath true ;; Returned (dropMissing errs)).
Proof.
  rewrite !validateResources_phases.
  rewrite (collect_dropMissing (fun e => stringBody v shortPath false e [])
                               (fun e => stringBody v shortPath true e [])).
  2:{ intros e. pose proof (@stringBody_countMissing v shortPath true e) as Hc.
      unfold stringBody in *. unfold stringAbsent in Hc.
      destruct (findStringElement v (stringEl_Name e)); [|reflexivity].
      destruct (r1 <- runComparisons _ _ _ _ _ [] ;; runSimples _ _ _ _ r1) as [r|];
        cbn [bind]; [|reflexivity].
      rewrite dropMissing_none; [reflexivity|].
      apply countMissing_zero_Forall. now apply Hc. }
  destruct (collect _ (Strings b)) as [st|]; cbn [bind]; [|reflexivity].
  rewrite (collect_dropMissing (fun a => stringArrayBody v shortPath false a [])
                               (fun a => stringArrayBody v shortPath true a [])).
  2:{ intros a. pose proof (@stringArrayBody_countMissing v shortPath true a) as Hc.
      unfold stringArrayBody in *. unfold stringArrayAbsent in Hc.
      destruct (findStringArrayElement v (stringArrayEl_Name a)); [|reflexivity].
      destruct (if negb _ then _ else _) as [r|]; cbn [bind]; [|reflexivity].
      rewrite dropMissing_none; [reflexivity|].
      apply countMissing_zero_Forall. now apply Hc. }
  destruct (collect _ (StringArrays b)) as [sa|]; cbn [bind]; [|reflexivity].
  rewrite !dropMissing_app.
  rewrite (dropMissing_none (reverseFindings_not_missing _ _ _)).
  rewrite (dropMissing_none (pluralFindings_not_missing _ _)).
  reflexivity.
Qed.

Lemma string_app_assoc (a b c : string) : ((a ++ b) ++ c = a ++ b ++ c)%string.
Proof. induction a as [|x a IH]; cbn; [reflexivity | now rewrite IH]. Qed.

Lemma string_app_nil_r (a : string) : (a ++ "" = a)%string.
Proof. induction a as [|x a IH]; cbn; [reflexivity | now rewrite IH]. Qed.

Lemma findingOf_ruleFailure name sp e : findingOf sp (ruleFailure name sp e).
Proof.
  split; [eexists; left; reflexivity|].
  exists name, (": " ++ Error e)%string. reflexivity.
Qed.

Lemma findingOf_missingError name sp : findingOf sp (missingError name sp).
Proof.
  split; [eexists; right; reflexivity|].
  exists ("[missing] element named " ++ name)%string, EmptyString.
  cbn [Error missingError]. now rewrite string_app_assoc, string_app_nil_r.
Qed.

Lemma findingOf_noBaseValueError name sp : findingOf sp (noBaseValueError name sp).
Proof.
  split; [eexists; left; reflexivity|].
  exists name, " does not have a base value."%string. reflexivity.
Qed.

Lemma findingOf_arrayCountError name sp actual expected :
  findingOf sp (arrayCountError name sp actual expected).
Proof.
  split; [eexists; left; reflexivity|].
  exists (name ++ " array")%string,
         (" has " ++ itoa actual ++ " items, but it should have " ++ itoa expected)%string.
  cbn [Error arrayCountError]. now rewrite string_app_assoc.
Qed.

Lemma simpleFindings_findingOf fns name sp value :
  Forall (findingOf sp) (simpleFindings fns name sp value).
Proof.
  unfold simpleFindings. apply Forall_flat_map, Forall_forall. intros fn _.
  destruct (fn value); [apply Forall_cons; [apply findingOf_ruleFailure|] |]; constructor.
Qed.

Lemma runComparisons_findingOf fns name sp bv vv acc r :
  runComparisons fns name sp bv vv acc = Returned r ->
  Forall (findingOf sp) acc -> Forall (findingOf sp) r.
Proof.
  unfold runComparisons. apply (forRange_invariant (Forall (findingOf sp))).
  intros fn st st' H Hst. destruct (fn bv vv) as [[e|]|]; cbn [bind] in H;
    try discriminate; injection H as <-; [|exact Hst].
  apply Forall_app. split; [exact Hst|]. apply Forall_cons; [apply findingOf_ruleFailure | apply Forall_nil].
Qed.

Lemma runSimples_findingOf fns name sp value acc r :
  runSimples fns name sp value acc = Returned r ->
  Forall (findingOf sp) acc -> Forall (findingOf sp) r.
Proof.
  rewrite runSimples_spec. intros H Hacc. injection H as <-.
  apply Forall_app. split; [exact Hacc | apply simpleFindings_findingOf].
Qed.

Lemma stringBody_findingOf v sp sm e acc r :
  stringBody v sp sm e acc = Returned r ->
  Forall (findingOf sp) acc -> Forall (findingOf sp) r.
Proof.
  unfold stringBody. destruct (findStringElement v (stringEl_Name e)) as [ve|].
  - destruct (runComparisons _ _ _ _ _ acc) as [r1|] eqn:E1; cbn [bind]; [|discriminate].
    intros H Hacc. eapply runSimples_findingOf; [exact H|].
    eapply runComparisons_findingOf; eassumption.
  - destruct sm; intros H Hacc; injection H as <-; [|exact Hacc].
    apply Forall_app. split; [exact Hacc|]. apply Forall_cons; [apply findingOf_missingError | apply Forall_nil].
Qed.

Lemma stringArrayBody_findingOf v sp sm a acc r :
  stringArrayBody v sp sm a acc = Returned r ->
  Forall (findingOf sp) acc -> Forall (findingOf sp) r.
Proof.
  unfold stringArrayBody.
  destruct (findStringArrayElement v (stringArrayEl_Name a)) as [va|].
  - destruct (negb _).
    + intros H Hacc; injection H as <-.
      apply Forall_app. split; [exact Hacc|]. apply Forall_cons; [apply findingOf_arrayCountError | apply Forall_nil].
    + apply (forRange_invariant (Forall (findingOf sp))).
      intros i st st' H Hst. unfold itemBody in H.
      destruct (index (stringArrayEl_Items a) i); cbn [bind] in H; [|discriminate].
      destruct (index (stringArrayEl_Items va) i); cbn [bind] in H; [|discriminate].
      destruct (runComparisons _ _ _ _ _ st) as [r1|] eqn:E1; cbn [bind] in H;
        [|discriminate].
      eapply runSimples_findingOf; [exact H|].
      eapply runComparisons_findingOf; eassumption.
  - destruct sm; intros H Hacc; injection H as <-; [|exact Hacc].
    apply Forall_app. split; [exact Hacc|]. apply Forall_cons; [apply findingOf_missingError | apply Forall_nil].
Qed.

(** X9.  Every finding returned by [validateResources] is a
    [ValidationError] or a [ResourceMissingError], and its message names the
    validated file: it contains [" in "] followed by the short path. *)
Theorem findings_name_the_file (b v : resourcesEl) (shortPath : string)
    (showMissing : bool) (errs : list error) :
  validateResources b v shortPath showMissing = Returned errs ->
  Forall (fun e =>
            (exists msg, e = ValidationError msg \/ e = ResourceMissingError msg) /\
            exists pre post, Error e = (pre ++ " in " ++ shortPath ++ post)%string)
         errs.
Proof.
  change (validateResources b v shortPath showMissing = Returned errs ->
          Forall (findingOf shortPath) errs).
  unfold validateResources. rewrite reverse_loop_spec. cbn [bind app].
  assert (Hrev : Forall (findingOf shortPath) (reverseFindings b shortPath (Strings v))).
  { unfold reverseFindings. apply Forall_flat_map, Forall_forall. intros ve _.
    destruct (existsb _ _); [constructor|].
    apply Forall_cons; [apply findingOf_noBaseValueError | apply Forall_nil]. }
  destruct (forRange (Strings b) _ _) as [st|] eqn:Est; cbn [bind]; [|discriminate].
  assert (Hst : Forall (findingOf shortPath) st).
  { revert Est Hrev. apply (forRange_invariant (Forall (findingOf shortPath))).
    intros x s0 s1. apply stringBody_findingOf. }
  destruct (forRange (StringArrays b) _ _) as [sa|] eqn:Esa; cbn [bind]; [|discriminate].
  assert (Hsa : Forall (findingOf shortPath) sa).
  { revert Esa Hst. apply (forRange_invariant (Forall (findingOf shortPath))).
    intros x s0 s1. apply stringArrayBody_findingOf. }
  rewrite plural_loop_spec. cbn [bind]. intros H; injection H as <-.
  apply Forall_app. split; [exact Hsa|].
  unfold pluralFindings, pluralEntryFindings.
  apply Forall_flat_map, Forall_forall. intros pe _.
  apply Forall_flat_map, Forall_forall. intros it _.
  apply simpleFindings_findingOf.
Qed.

Lemma findings_name_the_file_witness :
  Forall (fun e =>
            (exists msg, e = ValidationError msg \/ e = ResourceMissingError msg) /\
            exists pre post,
              Error e = (pre ++ " in " ++ "values-de/strings.xml" ++ post)%string)
    [ResourceMissingError "[missing] element named subtitle in values-de/strings.xml";
     ResourceMissingError "[missing] element named sizes in values-de/strings.xml"].
Proof.
  exact (@findings_name_the_file shopBase shopGerman "values-de/strings.xml" true _ eq_refl).
Defined.

Lemma forRange_returns {A S} (body : A -> S -> result S) (l : list A) :
  (forall x st, In x l -> exists st', body x st = Returned st') ->
  forall st, exists st', forRange l body st = Returned st'.
Proof.
  induction l as [|x l IH]; intros H st; cbn [forRange].
  - now exists st.
  - destruct (H x st (or_introl eq_refl)) as (st1 & ->). cbn [bind].
    apply IH. intros y s0 Hy. apply H. now right.
Qed.

Lemma positional_returns_without_base_tokens bv vv :
  FindAllString PositionalPlaceholderRegex bv = [] ->
  exists r, validatePositionalPlaceholders bv vv = Returned r.
Proof.
  intros HB. rewrite validatePositionalPlaceholders_spec. cbv zeta. rewrite HB.
  destruct (Nat.eqb _ _); eexists; reflexivity.
Qed.

Lemma runComparisons_returns name sp bv vv acc :
  FindAllString PositionalPlaceholderRegex bv = [] ->
  exists r, runComparisons comparisonValidationFuncs name sp bv vv acc = Returned r.
Proof.
  intros HB. unfold runComparisons, comparisonValidationFuncs. cbn [forRange].
  rewrite validateSimplePlaceholders_spec. cbv zeta. cbn [bind].
  destruct (positional_returns_without_base_tokens bv vv HB) as (r & ->).
  destruct (if Nat.eqb _ _ then _ else _); cbn [bind]; destruct r; eexists; reflexivity.
Qed.

(** X10.  A base document without positional placeholders cannot make the
    validator panic: if no base string value and no base string-array item
    contains a positional token, [validateResources] returns a list of
    findings for every translated document. *)
Theorem no_panic_without_base_positional_tokens (b v : resourcesEl)
    (shortPath : string) (showMissing : bool) :
  (forall e, In e (Strings b) ->
             FindAllString PositionalPlaceholderRegex (stringEl_Value e) = []) ->
  (forall a item, In a (StringArrays b) -> In item (stringArrayEl_Items a) ->
                  FindAllString PositionalPlaceholderRegex item = []) ->
  exists errs, validateResources b v shortPath showMissing = Returned errs.
Proof.
  intros Hs Ha. unfold validateResources. rewrite reverse_loop_spec. cbn [bind].
  rewrite app_nil_l.
  destruct (forRange_returns (stringBody v shortPath showMissing) (Strings b))
    with (st := reverseFindings b shortPath (Strings v)) as (st & ->).
  { intros e acc He. unfold stringBody.
    destruct (findStringElement v (stringEl_Name e)) as [ve|].
    - destruct (runComparisons_returns (stringEl_Name e) shortPath
                  (stringEl_Value e) (stringEl_Value ve) acc (Hs e He)) as (r & ->).
      cbn [bind]. rewrite runSimples_spec. eexists; reflexivity.
    - destruct showMissing; eexists; reflexivity. }
  cbn [bind].
  destruct (forRange_returns (stringArrayBody v shortPath showMissing) (StringArrays b))
    with (st := st) as (sa & ->).
  { intros a acc Hin. unfold stringArrayBody.
    destruct (findStringArrayElement v (stringArrayEl_Name a)) as [va|].
    - destruct (Nat.eqb_spec (List.length (stringArrayEl_Items a))
                             (List.length (stringArrayEl_Items va))) as [Hlen|Hlen];
        cbn [negb]; [|eexists; reflexivity].
      apply forRange_returns. intros i acc0 Hi. apply in_seq in Hi.
      unfold itemBody, index.
      destruct (nth_error (stringArrayEl_Items a) i) as [bi|] eqn:Eb;
        [|apply nth_error_None in Eb; lia].
      destruct (nth_error (stringArrayEl_Items va) i) as [vi|] eqn:Ev;
        [|apply nth_error_None in Ev; lia].
      cbn [bind].
      destruct (runComparisons_returns (stringArrayEl_Name a) shortPath bi vi acc0)
        as (r & ->).
      { apply (Ha a bi Hin). eapply nth_error_In; eassumption. }
      cbn [bind]. rewrite runSimples_spec. eexists; reflexivity.
    - destruct showMissing; eexists; reflexivity. }
  cbn [bind]. rewrite plural_loop_spec. eexists; reflexivity.
Qed.

Lemma no_panic_without_base_positional_tokens_witness :
  exists errs,
    validateResources shopBase welcomeWithExtra "values-de/strings.xml" true = Returned errs.
Proof.
  apply no_panic_without_base_positional_tokens.
  - intros e H. cbn in H. in_cases; reflexivity.
  - intros a item H H'. cbn in H. in_cases. cbn in H'. in_cases; reflexivity.
Defined.

Lemma collect_singletons {A} (f : A -> result (list error)) (g : A -> error) l :
  (forall x, f x = Returned [g x]) -> collect f l = Returned (map g l).
Proof.
  intros H. induction l as [|x l IH]; cbn [collect map]; [reflexivity|].
  now rewrite H, IH.
Qed.

Lemma collect_nothing {A} (f : A -> result (list error)) l :
  (forall x, f x = Returned []) -> collect f l = Returned [].
Proof.
  intros H. induction l as [|x l IH]; cbn [collect]; [reflexivity|].
  now rewrite H, IH.
Qed.

(** X11.  Against a translated document without string and string-array
    entries, validation never panics: with [showMissing] it reports every
    base string, then every base string array, as missing, in document
    order, and without it nothing; the translated plurals' own findings
    follow. *)
Theorem validation_of_empty_translation (b : resourcesEl) (p : list pluralEl)
    (shortPath : string) (showMissing : bool) :
  validateResources b {| Strings := []; Plurals := p; StringArrays := [] |}
    shortPath showMissing =
  Returned ((if showMissing then
               map (fun e => missingError (stringEl_Name e) shortPath) (Strings b) ++
               map (fun a => missingError (stringArrayEl_Name a) shortPath) (StringArrays b)
             else []) ++ pluralFindings shortPath p).
Proof.
  rewrite validateResources_phases. cbn [Strings Plurals StringArrays reverseFindings flat_map].
  destruct showMissing.
  - rewrite (collect_singletons _ (fun e => missingError (stringEl_Name e) shortPath))
      by reflexivity.
    cbn [bind].
    rewrite (collect_singletons _ (fun a => missingError (stringArrayEl_Name a) shortPath))
      by reflexivity.
    cbn [bind app]. now rewrite <- app_assoc.
  - rewrite collect_nothing by reflexivity. cbn [bind].
    rewrite collect_nothing by reflexivity. reflexivity.
Qed.

(** X12.  Against a base document without string and string-array entries,
    validation never panics and flags every translated string entry as
    having no base value, in document order; the translated plurals' own
    findings follow, and translated string arrays are not reported. *)
Theorem validation_against_empty_base (p : list pluralEl) (v : resourcesEl)
    (shortPath : string) (showMissing : bool) :
  validateResources {| Strings := []; Plurals := p; StringArrays := [] |} v
    shortPath showMissing =
  Returned (map (fun e => noBaseValueError (stringEl_Name e) shortPath) (Strings v) ++
            pluralFindings shortPath (Plurals v)).
Proof.
  rewrite validateResources_phases. cbn [Strings StringArrays collect bind app].
  rewrite !app_nil_l.
  assert (E : reverseFindings {| Strings := []; Plurals := p; StringArrays := [] |}
                shortPath (Strings v) =
              map (fun e => noBaseValueError (stringEl_Name e) shortPath) (Strings v)).
  { unfold reverseFindings.
    induction (Strings v) as [|e l IH]; [reflexivity|].
    simpl. apply f_equal. exact IH. }
  now rewrite E.
Qed.

(** ** [getOtherStringsFilePaths] and [valuesDir] *)

Lemma removeFirst_absent x l : ~ In x l -> removeFirst x l = l.
Proof.
  induction l as [|p l IH]; intros H; cbn [removeFirst]; [reflexivity|].
  destruct (String.eqb_spec p x) as [->|_].
  - elim H. now left.
  - rewrite IH; [reflexivity|]. intros Hin. apply H. now right.
Qed.

Lemma removeFirst_present x l :
  In x l -> exists l1 l2, l = l1 ++ x :: l2 /\ ~ In x l1 /\ removeFirst x l = l1 ++ l2.
Proof.
  induction l as [|p l IH]; intros H; [destruct H|]. cbn [removeFirst].
  destruct (String.eqb_spec p x) as [->|Hne].
  - exists [], l. repeat split. intros [].
  - destruct H as [H|H]; [contradiction|].
    destruct (IH H) as (l1 & l2 & -> & Hl1 & ->).
    exists (p :: l1), l2. repeat split. intros [E|Hin]; [contradiction | now apply Hl1].
Qed.

Lemma removeFirst_NoDup x l : NoDup l -> ~ In x (removeFirst x l).
Proof.
  induction 1 as [|p l Hp _ IH]; cbn [removeFirst]; [intros []|].
  destruct (String.eqb_spec p x) as [->|Hne]; [exact Hp|].
  intros [E|Hin]; [contradiction | now apply IH].
Qed.

(** X13.  When both globs succeed, [getOtherStringsFilePaths] returns the
    matches of ["values-*"] followed by those of ["values"], in their order,
    with exactly the first occurrence of the base file's path removed (and
    nothing removed when it does not occur); if the matches have no
    duplicates, the base path is not among the returned paths. *)
Theorem other_paths_drop_first_base_path
    (Glob : string -> error + list string) (Join : list string -> string)
    (resDir exceptForLocale stringsFilename : string) (ps ps2 : list string) :
  Glob (Join [resDir; "values-*"; stringsFilename]) = inr ps ->
  Glob (Join [resDir; "values"; stringsFilename]) = inr ps2 ->
  exists paths,
    getOtherStringsFilePaths Glob Join resDir exceptForLocale stringsFilename =
      ([EvGlob (Join [resDir; "values-*"; stringsFilename]);
        EvGlob (Join [resDir; "values"; stringsFilename])],
       Returned (inr paths))
    /\ ((~ In (Join [resDir; valuesDir exceptForLocale; stringsFilename]) (ps ++ ps2) /\
         paths = ps ++ ps2)
        \/ exists l1 l2,
             ps ++ ps2 = l1 ++ Join [resDir; valuesDir exceptForLocale; stringsFilename] :: l2 /\
             ~ In (Join [resDir; valuesDir exceptForLocale; stringsFilename]) l1 /\
             paths = l1 ++ l2)
    /\ (NoDup (ps ++ ps2) ->
        ~ In (Join [resDir; valuesDir exceptForLocale; stringsFilename]) paths).
Proof.
  intros H1 H2.
  exists (removeFirst (Join [resDir; valuesDir exceptForLocale; stringsFilename]) (ps ++ ps2)).
  split; [|split].
  - unfold getOtherStringsFilePaths, glob. cbn [ioBind]. rewrite H1. cbn [ioBind].
    rewrite H2. reflexivity.
  - destruct (in_dec string_dec
                (Join [resDir; valuesDir exceptForLocale; stringsFilename]) (ps ++ ps2))
      as [Hin|Hout].
    + right. destruct (removeFirst_present _ _ Hin) as (l1 & l2 & E & Hl1 & Hr).
      now exists l1, l2.
    + left. split; [exact Hout | now apply removeFirst_absent].
  - apply removeFirst_NoDup.
Qed.

Lemma other_paths_drop_first_base_path_witness :
  exists paths,
    getOtherStringsFilePaths
      (fun patt => if String.eqb patt "res/values-*/strings.xml"
                   then inr ["res/values-de/strings.xml"; "res/values-en/strings.xml"]
                   else inr ["res/values/strings.xml"])
      (String.concat "/") "res" "en" "strings.xml" =
    ([EvGlob "res/values-*/strings.xml"; EvGlob "res/values/strings.xml"],
     Returned (inr paths))
    /\ ~ In "res/values-en/strings.xml" paths.
Proof.
  destruct (@other_paths_drop_first_base_path
              (fun patt => if String.eqb patt "res/values-*/strings.xml"
                           then inr ["res/values-de/strings.xml"; "res/values-en/strings.xml"]
                           else inr ["res/values/strings.xml"])
              (String.concat "/") "res" "en" "strings.xml"
              ["res/values-de/strings.xml"; "res/values-en/strings.xml"]
              ["res/values/strings.xml"] eq_refl eq_refl)
    as (paths & Hrun & _ & Hnodup).
  exists paths. split; [exact Hrun|]. apply Hnodup.
  repeat constructor; cbn; intros H; in_cases; discriminate.
Defined.

(** X14.  [valuesDir] is injective: two different locales, the empty one
    included, never share a values directory. *)
Theorem valuesDir_injective (l1 l2 : string) :
  valuesDir l1 = valuesDir l2 -> l1 = l2.
Proof.
  destruct l1 as [|a1 l1], l2 as [|a2 l2]; cbn; intros H;
    try reflexivity; try discriminate.
  now injection H as -> ->.
Qed.

Lemma valuesDir_injective_witness : "en-rGB" = "en-rGB".
Proof. apply valuesDir_injective. reflexivity. Defined.

(** ** [Validate] *)

Section ValidateProperties.

Variable ReadFile : string -> error + string.
Variable Unmarshal : string -> error + resourcesEl.
Variable Glob : string -> error + list string.
Variable Join : list string -> string.
Variable Rel : string -> string -> error + string.

Lemma validateLoop_spec base resDir sm paths : forall acc,
  snd (validateLoop ReadFile Unmarshal Rel base resDir sm paths acc) =
    (rs <- collect (fileFindings ReadFile Unmarshal Rel base resDir sm) paths ;;
     Returned (acc ++ rs))
  /\ (forall rs,
        collect (fileFindings ReadFile Unmarshal Rel base resDir sm) paths = Returned rs ->
        fst (validateLoop ReadFile Unmarshal Rel base resDir sm paths acc) =
        map EvReadFile paths).
Proof.
  induction paths as [|path rest IH]; intros acc.
  - cbn. rewrite app_nil_r. split; [reflexivity | intros; reflexivity].
  - cbn [validateLoop collect]. unfold fileFindings at 1 3, parseResourcesFile.
    cbn [ioBind snd bind].
    destruct (match ReadFile path with inl err => inl err | inr data => Unmarshal data end)
      as [err|resources].
    + destruct (IH (acc ++ [err])) as [IHs IHt].
      destruct (validateLoop ReadFile Unmarshal Rel base resDir sm rest (acc ++ [err]))
        as [t r]. cbn [fst snd] in *. cbn [bind]. subst r.
      destruct (collect _ rest) as [rs|]; cbn [bind].
      * split; [now rewrite <- app_assoc|]. intros rs0 _. cbn [map app].
        now rewrite (IHt rs eq_refl).
      * split; [reflexivity | discriminate].
    + unfold ioLift. cbn [ioBind].
      destruct (validateResources base resources (extractShortPath Rel resDir path) sm)
        as [ers|]; cbn [bind].
      * destruct (IH (acc ++ ers)) as [IHs IHt].
        destruct (validateLoop ReadFile Unmarshal Rel base resDir sm rest (acc ++ ers))
          as [t r]. cbn [fst snd app] in *. subst r.
        destruct (collect _ rest) as [rs|]; cbn [bind].
        -- split; [now rewrite <- app_assoc|]. intros rs0 _. cbn [map].
           now rewrite (IHt rs eq_refl).
        -- split; [reflexivity | discriminate].
      * cbn [fst snd]. split; [reflexivity | discriminate].
Qed.

Lemma getOther_trace resDir baseLocale fn :
  exists globs r,
    getOtherStringsFilePaths Glob Join resDir baseLocale fn = (map EvGlob globs, Returned r).
Proof.
  unfold getOtherStringsFilePaths, glob. cbn [ioBind].
  destruct (Glob (Join [resDir; "values-*"; fn])) as [err|ps]; cbn [ioBind ioRet].
  - exists [Join [resDir; "values-*"; fn]]. eexists. reflexivity.
  - destruct (Glob (Join [resDir; "values"; fn])) as [err|ps2]; cbn [ioRet];
      exists [Join [resDir; "values-*"; fn]; Join [resDir; "values"; fn]];
      eexists; reflexivity.
Qed.

Lemma Validate_unfold resDir baseLocale fn sm base :
  snd (parseResources ReadFile Unmarshal Join resDir baseLocale fn) = Returned (inr base) ->
  Validate ReadFile Unmarshal Glob Join Rel resDir baseLocale fn sm =
  let (t, r) := getOtherStringsFilePaths Glob Join resDir baseLocale fn in
  match r with
  | Returned (inl err) =>
      (EvReadFile (Join [resDir; valuesDir baseLocale; fn]) :: t, Returned [err])
  | Returned (inr paths) =>
      let (t', r') := validateLoop ReadFile Unmarshal Rel base resDir sm paths [] in
      (EvReadFile (Join [resDir; valuesDir baseLocale; fn]) :: t ++ t', r')
  | Panicked => (EvReadFile (Join [resDir; valuesDir baseLocale; fn]) :: t, Panicked)
  end.
Proof.
  unfold Validate, parseResources, parseResourcesFile. cbn [snd ioBind].
  intros H; injection H as H. rewrite H.
  destruct (getOtherStringsFilePaths Glob Join resDir baseLocale fn) as [t [[err|paths]|]];
    cbn [ioBind ioRet app]; try reflexivity.
  - now rewrite app_nil_r.
  - destruct (validateLoop _ _ _ _ _ _ _ _) as [t' r']. reflexivity.
Qed.

(** X15.  If the base document parses but enumerating the other files
    fails, [Validate] returns exactly that one error; its file-system calls
    are the read of the base file followed by globs only: no translated
    file is read. *)
Theorem Validate_enumeration_failure (resDir baseLocale fn : string) (sm : bool)
    (base : resourcesEl) (err : error) :
  snd (parseResources ReadFile Unmarshal Join resDir baseLocale fn) = Returned (inr base) ->
  snd (getOtherStringsFilePaths Glob Join resDir baseLocale fn) = Returned (inl err) ->
  exists globs,
    Validate ReadFile Unmarshal Glob Join Rel resDir baseLocale fn sm =
    (EvReadFile (Join [resDir; valuesDir baseLocale; fn]) :: map EvGlob globs,
     Returned [err]).
Proof.
  intros Hbase Hother. rewrite (Validate_unfold sm Hbase).
  destruct (getOther_trace resDir baseLocale fn) as (globs & r & E).
  rewrite E in *. cbn [snd] in Hother. injection Hother as ->.
  now exists globs.
Qed.

(** X16.  When the base document parses and the enumeration succeeds, the
    result of [Validate] is the concatenation, in enumeration order, of what
    each file contributes: its parse error alone if it cannot be parsed,
    else the findings of its validation; [Validate] panics exactly when the
    validation of some file does. *)
Theorem Validate_concatenates_per_file (resDir baseLocale fn : string) (sm : bool)
    (base : resourcesEl) (paths : list string) :
  snd (parseResources ReadFile Unmarshal Join resDir baseLocale fn) = Returned (inr base) ->
  snd (getOtherStringsFilePaths Glob Join resDir baseLocale fn) = Returned (inr paths) ->
  snd (Validate ReadFile Unmarshal Glob Join Rel resDir baseLocale fn sm) =
  collect (fun path =>
             r <- snd (parseResourcesFile ReadFile Unmarshal path) ;;
             match r with
             | inl err => Returned [err]
             | inr resources =>
                 validateResources base resources (extractShortPath Rel resDir path) sm
             end) paths.
Proof.
  intros Hbase Hother.
  change (snd (Validate ReadFile Unmarshal Glob Join Rel resDir baseLocale fn sm) =
          collect (fileFindings ReadFile Unmarshal Rel base resDir sm) paths).
  rewrite (Validate_unfold sm Hbase).
  destruct (getOtherStringsFilePaths Glob Join resDir baseLocale fn) as [t r].
  cbn [snd] in Hother. subst r.
  destruct (validateLoop_spec base resDir sm paths []) as [Hs _].
  destruct (validateLoop _ _ _ _ _ _ _ _) as [t' r']. cbn [snd] in *. subst r'.
  destruct (collect _ paths); reflexivity.
Qed.

(** X17.  On a run of [Validate] that returns, the file-system calls are:
    the read of the base file, the globs, then one read of each enumerated
    path, in enumeration order. *)
Theorem Validate_reads_each_file_once (resDir baseLocale fn : string) (sm : bool)
    (base : resourcesEl) (paths : list string) (errs : list error) :
  snd (parseResources ReadFile Unmarshal Join resDir baseLocale fn) = Returned (inr base) ->
  snd (getOtherStringsFilePaths Glob Join resDir baseLocale fn) = Returned (inr paths) ->
  snd (Validate ReadFile Unmarshal Glob Join Rel resDir baseLocale fn sm) = Returned errs ->
  exists globs,
    fst (Validate ReadFile Unmarshal Glob Join Rel resDir baseLocale fn sm) =
    EvReadFile (Join [resDir; valuesDir baseLocale; fn]) ::
    map EvGlob globs ++ map EvReadFile paths.
Proof.
  intros Hbase Hother. rewrite (Validate_unfold sm Hbase).
  destruct (getOther_trace resDir baseLocale fn) as (globs & r & E).
  rewrite E in *. cbn [snd] in Hother. injection Hother as ->.
  destruct (validateLoop_spec base resDir sm paths []) as [Hs Ht].
  destruct (validateLoop _ _ _ _ _ _ _ _) as [t' r']. cbn [fst snd] in *. subst r'.
  intros Hret. exists globs.
  destruct (collect _ paths) as [rs|]; [|discriminate].
  now rewrite (Ht rs eq_refl).
Qed.


End ValidateProperties.

Lemma Validate_enumeration_failure_witness :
  exists globs,
    Validate demoReadFile demoUnmarshal (fun _ => inl (ExternalError "syntax error in pattern"))
      (String.concat "/") demoRel "res" "" "strings.xml" true =
    (EvReadFile "res/values/strings.xml" :: map EvGlob globs,
     Returned [ExternalError "syntax error in pattern"]).
Proof.
  exact (@Validate_enumeration_failure demoReadFile demoUnmarshal
           (fun _ => inl (ExternalError "syntax error in pattern"))
           (String.concat "/") demoRel "res" "" "strings.xml" true shopBase
           (ExternalError "syntax error in pattern") eq_refl eq_refl).
Defined.

Lemma Validate_concatenates_per_file_witness :
  snd (Validate demoReadFile demoUnmarshal demoGlob (String.concat "/") demoRel
         "res" "" "strings.xml" true) =
  Returned [ExternalError "open res/values-fr/strings.xml: permission denied";
            ResourceMissingError "[missing] element named subtitle in values-de/strings.xml";
            ResourceMissingError "[missing] element named sizes in values-de/strings.xml"].
Proof.
  exact (@Validate_concatenates_per_file demoReadFile demoUnmarshal demoGlob
           (String.concat "/") demoRel "res" "" "strings.xml" true shopBase
           ["res/values-fr/strings.xml"; "res/values-de/strings.xml"] eq_refl eq_refl).
Defined.

Lemma Validate_reads_each_file_once_witness :
  exists globs,
    fst (Validate demoReadFile demoUnmarshal demoGlob (String.concat "/") demoRel
           "res" "" "strings.xml" true) =
    EvReadFile "res/values/strings.xml" ::
    map EvGlob globs ++
    [EvReadFile "res/values-fr/strings.xml"; EvReadFile "res/values-de/strings.xml"].
Proof.
  exact (@Validate_reads_each_file_once demoReadFile demoUnmarshal demoGlob
           (String.concat "/") demoRel "res" "" "strings.xml" true shopBase
           ["res/values-fr/strings.xml"; "res/values-de/strings.xml"] _
           eq_refl eq_refl eq_refl).
Defined.


(** ** The command line *)

Lemma printLoop_spec errorList : forall errorCount,
  printLoop errorList errorCount =
  (map (fun ie => ("[" ++ itoa (fst ie) ++ "] " ++ Error (snd ie) ++ String newline "")%string)
       (combine (seq (S errorCount) (List.length errorList)) errorList),
   errorCount + List.length errorList).
Proof.
  induction errorList as [|e rest IH]; intros k; cbn [printLoop].
  - cbn. now rewrite Nat.add_0_r.
  - rewrite IH. rewrite Nat.add_1_r. cbn [List.length seq combine map fst snd].
    f_equal. lia.
Qed.

(** X19.  With both required flags given, when [Validate] returns [n]
    findings, [validateStrings] prints them numbered from 1 in order, one
    per line, then the line ["Found n errors."], or ["No errors found."] when
    there is none, and calls [os.Exit] with [n]; it makes no file-system
    call of its own. *)
Theorem validateStrings_reports_and_exits_with_count
    (ReadFile : string -> error + string) (Unmarshal : string -> error + resourcesEl)
    (Glob : string -> error + list string) (Join : list string -> string)
    (Rel : string -> string -> error + string)
    (resDir baseLocale fn : string) (sm : bool) (t : list event) (errs : list error) :
  resDir <> "" -> fn <> "" ->
  Validate ReadFile Unmarshal Glob Join Rel resDir baseLocale fn sm = (t, Returned errs) ->
  validateStrings ReadFile Unmarshal Glob Join Rel resDir baseLocale fn sm =
  (t, Returned
        {| usageShown := false;
           stdout :=
             map (fun ie => ("[" ++ itoa (fst ie) ++ "] " ++ Error (snd ie) ++
                             String newline "")%string)
                 (combine (seq 1 (List.length errs)) errs) ++
             [match errs with
              | [] => ("No errors found." ++ String newline "")%string
              | _ :: _ => ("Found " ++ itoa (List.length errs) ++ " errors." ++
                           String newline "")%string
              end];
           exitCode := Z.of_nat (List.length errs) |}).
Proof.
  intros Hres Hfn HV. unfold validateStrings.
  destruct resDir as [|a1 r1]; [contradiction|].
  destruct fn as [|a2 f2]; [contradiction|].
  cbn [String.length Nat.ltb Nat.leb andb negb]. rewrite HV. cbn [ioBind].
  rewrite printLoop_spec. cbn [Nat.add ioRet]. rewrite app_nil_r.
  destruct errs; reflexivity.
Qed.

Lemma validateStrings_reports_and_exits_with_count_witness :
  exists t,
    validateStrings demoReadFile demoUnmarshal demoGlob (String.concat "/") demoRel
      "res" "" "strings.xml" false =
    (t, Returned
          {| usageShown := false;
             stdout := [ ("[1] open res/values-fr/strings.xml: permission denied" ++
                          String newline "")%string;
                         ("Found 1 errors." ++ String newline "")%string ];
             exitCode := 1%Z |}).
Proof.
  eexists.
  refine (@validateStrings_reports_and_exits_with_count demoReadFile demoUnmarshal demoGlob
            (String.concat "/") demoRel "res" "" "strings.xml" false _
            [ExternalError "open res/values-fr/strings.xml: permission denied"] _ _ _).
  - discriminate.
  - discriminate.
  - reflexivity.
Defined.

(** ** The download: naming of the target directory *)

Lemma replace_hyphen_prefix repl a : forall s,
  ~ In "-"%char (chars a) ->
  replaceAllFrom hyphenRegexp repl 0 (a ++ s) =
  (a ++ replaceAllFrom hyphenRegexp repl 0 s)%string.
Proof.
  induction a as [|x a IH]; intros s Hno; [reflexivity|].
  cbn [append replaceAllFrom matchHere hyphenRegexp]. unfold isChar.
  destruct (Ascii.eqb_spec x "-"%char) as [->|_].
  - elim Hno. now left.
  - cbn [option_map]. rewrite IH; [reflexivity|]. intros H. apply Hno. now right.
Qed.

(** X20.  The directory a downloaded locale is copied to: for a locale
    identifier made of a language and a region joined by one hyphen, it is
    ["values-<language>-r<region>"], which is the directory [valuesDir] gives
    the validator for the locale ["<language>-r<region>"]; for an identifier
    without hyphen it is ["values-<identifier>"]. *)
Theorem valuesDirName_adds_region_qualifier (language region : string) :
  ~ In "-"%char (chars language) -> ~ In "-"%char (chars region) ->
  valuesDirName (language ++ "-" ++ region) =
    ("values-" ++ language ++ "-r" ++ region)%string
  /\ valuesDirName (language ++ "-" ++ region) = valuesDir (language ++ "-r" ++ region)
  /\ valuesDirName language = ("values-" ++ language)%string.
Proof.
  intros Hl Hr.
  assert (E0 : forall a, ~ In "-"%char (chars a) ->
                         replaceAllFrom hyphenRegexp "-r" 0 a = a).
  { intros a Ha. rewrite <- (string_app_nil_r a) at 1.
    rewrite (replace_hyphen_prefix "-r" a "" Ha). apply string_app_nil_r. }
  assert (E : valuesDirName (language ++ "-" ++ region) =
              ("values-" ++ language ++ "-r" ++ region)%string).
  { unfold valuesDirName, ReplaceAllLiteralString.
    rewrite (replace_hyphen_prefix "-r" language _ Hl).
    cbn [append replaceAllFrom matchHere hyphenRegexp isChar Ascii.eqb Bool.eqb option_map
         consFst fst String.length Nat.sub].
    now rewrite (E0 region Hr). }
  split; [exact E|]. split.
  - rewrite E. unfold valuesDir.
    destruct language; reflexivity.
  - unfold valuesDirName, ReplaceAllLiteralString. now rewrite (E0 language Hl).
Qed.

Lemma valuesDirName_adds_region_qualifier_witness :
  valuesDirName "en-GB" = "values-en-rGB".
Proof.
  refine (proj1 (@valuesDirName_adds_region_qualifier "en" "GB" _ _));
    cbn; intros H; in_cases; discriminate.
Defined.

(** X21.  The only failure the positional-placeholder rule ever returns is
    the count mismatch, and it returns it exactly when the two values have
    different numbers of positional tokens. *)
Theorem positional_rule_only_reports_counts (b t : string) (e : error) :
  validatePositionalPlaceholders b t = Returned (Some e) <->
  List.length (FindAllString PositionalPlaceholderRegex b) <>
  List.length (FindAllString PositionalPlaceholderRegex t) /\
  e = countMismatch (List.length (FindAllString PositionalPlaceholderRegex t))
                    (List.length (FindAllString PositionalPlaceholderRegex b)).
Proof.
  rewrite validatePositionalPlaceholders_spec. cbv zeta.
  destruct (Nat.eqb_spec (List.length (FindAllString PositionalPlaceholderRegex b))
                         (List.length (FindAllString PositionalPlaceholderRegex t)))
    as [Hlen|Hlen].
  - destruct (allFound _ _); split; try discriminate; intros [H _]; contradiction.
  - split.
    + intros H. injection H as <-. now split.
    + intros [_ ->]. reflexivity.
Qed.
